(** * Travelbolt: the package form and the packages hook

    A shallow embedding of
      - [src/components/admin/AddEditPackageModal.tsx] (module [Form]) and
      - [src/hooks/usePackages.ts] (module [Hook]),
    over a model of the JavaScript values both files compute with
    (module [JS]): strings as sequences of UTF-16 code units, Numbers as
    IEEE 754 binary64 values, [String.prototype.trim], [parseInt] and
    [parseFloat]. *)

From Stdlib Require Import ZArith NArith List Bool Ascii String Lia.
From Stdlib Require Import DecimalString.
From Stdlib Require Import Floats.SpecFloat.
Import ListNotations.

Set Implicit Arguments.
Local Open Scope Z_scope.

(* ===================================================================== *)
(** * JavaScript values *)
(* ===================================================================== *)

Module JS.

(** ** Strings *)

(** A string is its sequence of UTF-16 code units. *)
Definition code_unit := N.
Definition jsstring := list code_unit.

(** A literal of the source, code unit by code unit (ASCII only). *)
Definition lit (s : string) : jsstring :=
  List.map N_of_ascii (list_ascii_of_string s).

Definition string_eqb (a b : jsstring) : bool :=
  if list_eq_dec N.eq_dec a b then true else false.

(** [ToBoolean] of a string: every string but the empty one is truthy. *)
Definition truthy_string (s : jsstring) : bool :=
  match s with [] => false | _ :: _ => true end.

(** [ToBoolean] of an optional string ([undefined] is falsy). *)
Definition truthy_opt (o : option jsstring) : bool :=
  match o with Some s => truthy_string s | None => false end.

(** WhiteSpace and LineTerminator code units (ECMA-262, 12.2 and 12.3):
    what [trim], [parseInt] and [parseFloat] strip. *)
Definition is_whitespace (c : code_unit) : bool :=
  ((9 <=? c) && (c <=? 13) || (c =? 32) || (c =? 160) || (c =? 5760)
   || (8192 <=? c) && (c <=? 8202)
   || (c =? 8232) || (c =? 8233) || (c =? 8239) || (c =? 8287)
   || (c =? 12288) || (c =? 65279))%N.

Fixpoint trimStart (s : jsstring) : jsstring :=
  match s with
  | c :: r => if is_whitespace c then trimStart r else s
  | [] => []
  end.

Definition trimEnd (s : jsstring) : jsstring := rev (trimStart (rev s)).

(** [String.prototype.trim]. *)
Definition trim (s : jsstring) : jsstring := trimEnd (trimStart s).

(** [!s.trim()]. *)
Definition blank (s : jsstring) : bool := negb (truthy_string (trim s)).

(** ** Numbers *)

(** A Number is a binary64 value; [S754_nan] is NaN. *)
Definition number := spec_float.

Definition prec : Z := 53.
Definition emax : Z := 1024.

Definition NaN : number := S754_nan.
Definition zero : number := S754_zero false.
Definition neg_zero : number := S754_zero true.
Definition Infinity : number := S754_infinity false.

(** The Number nearest to an integer (round to nearest, ties to even). *)
Definition of_Z (z : Z) : number := binary_normalize prec emax z 0 false.

(** The mantissa of a positive integer below [2^53], once normalized:
    the integer shifted left until it has 53 bits. *)
Definition normal_mantissa (p : positive) : positive :=
  match (53 - Zpos (digits2_pos p))%Z with
  | Zpos k => Pos.iter xO p k
  | _ => p
  end.

(** The Number nearest to [m / d] for positive integers [m] and [d]. *)
Definition of_ratio (m d : positive) : number :=
  SFdiv prec emax (S754_finite false m 0) (S754_finite false d 0).

Definition neg (x : number) : number := SFopp x.

(** [x <= y] and [x > y] on Numbers: false as soon as one side is NaN. *)
Definition le (x y : number) : bool := SFleb x y.
Definition gt (x y : number) : bool := SFltb y x.

(** [ToBoolean] of a Number: zero (of either sign) and NaN are falsy. *)
Definition truthy_number (x : number) : bool :=
  match x with
  | S754_zero _ | S754_nan => false
  | _ => true
  end.

(** [x || y] on Numbers. *)
Definition or_else (x y : number) : number :=
  if truthy_number x then x else y.

(** The integer a finite Number is equal to, when it is one. *)
Definition to_Z (x : number) : option Z :=
  match x with
  | S754_zero _ => Some 0
  | S754_finite s m e =>
      let v :=
        match e with
        | Z0 => Some (Zpos m)
        | Zpos k => Some (Zpos m * 2 ^ Zpos k)
        | Zneg k =>
            if Zpos m mod 2 ^ Zpos k =? 0 then Some (Zpos m / 2 ^ Zpos k)
            else None
        end in
      option_map (fun z => if s then - z else z) v
  | _ => None
  end.

(** The largest length an Array can have ([2^32 - 1]). *)
Definition max_array_length : Z := 4294967295.

(** A Number as an Array length: an integer between 0 and [2^32 - 1]. *)
Definition to_array_length (x : number) : option Z :=
  match to_Z x with
  | Some z => if (0 <=? z) && (z <=? max_array_length) then Some z else None
  | None => None
  end.

(** ** [parseInt] (ECMA-262, 19.2.5), called with one argument *)

Definition digit_value (radix : Z) (c : code_unit) : option Z :=
  let c := Z.of_N c in
  let v :=
    if (48 <=? c) && (c <=? 57) then Some (c - 48)
    else if (97 <=? c) && (c <=? 122) then Some (c - 87)
    else if (65 <=? c) && (c <=? 90) then Some (c - 55)
    else None in
  match v with
  | Some d => if d <? radix then Some d else None
  | None => None
  end.

(** The digits of the longest prefix of [s] made of radix-[radix] digits,
    and what follows it. *)
Fixpoint span_digits (radix : Z) (s : jsstring) : list Z * jsstring :=
  match s with
  | c :: r =>
      match digit_value radix c with
      | Some d => let '(ds, rest) := span_digits radix r in (d :: ds, rest)
      | None => ([], s)
      end
  | [] => ([], [])
  end.

(** The integer a sequence of digits denotes. *)
Definition digits_value (radix : Z) (ds : list Z) : Z :=
  fold_left (fun acc d => acc * radix + d) ds 0.

Definition minus_sign : code_unit := 45%N.
Definition plus_sign : code_unit := 43%N.

(** A leading sign: whether it is [-], and the rest. *)
Definition strip_sign (s : jsstring) : bool * jsstring :=
  match s with
  | c :: r =>
      if (c =? minus_sign)%N then (true, r)
      else if (c =? plus_sign)%N then (false, r)
      else (false, s)
  | [] => (false, [])
  end.

(** A leading [0x] or [0X] selects radix 16. *)
Definition strip_hex_prefix (s : jsstring) : Z * jsstring :=
  match s with
  | 48%N :: 120%N :: r => (16, r)
  | 48%N :: 88%N :: r => (16, r)
  | _ => (10, s)
  end.

(** Steps 1 to 12: the sign and the mathematical integer of the digits
    ([None] when there is no digit). *)
Definition parseInt_math (s : jsstring) : option (bool * Z) :=
  let '(negative, s1) := strip_sign (trimStart s) in
  let '(radix, s2) := strip_hex_prefix s1 in
  match fst (span_digits radix s2) with
  | [] => None
  | ds => Some (negative, digits_value radix ds)
  end.

Definition parseInt (s : jsstring) : number :=
  match parseInt_math s with
  | None => NaN
  | Some (negative, 0) => if negative then neg_zero else zero
  | Some (negative, n) => of_Z (if negative then - n else n)
  end.

(** The integer the digits [parseInt] reads denote, with their sign (0
    when there is no digit). *)
Definition integer_prefix (s : jsstring) : Z :=
  match parseInt_math s with
  | Some (negative, n) => if negative then - n else n
  | None => 0
  end.

(** ** [parseFloat] (ECMA-262, 19.2.4) *)

Fixpoint strip_prefix (p s : jsstring) : option jsstring :=
  match p, s with
  | [], _ => Some s
  | a :: p', b :: s' => if (a =? b)%N then strip_prefix p' s' else None
  | _ :: _, [] => None
  end.

(** An ExponentPart at the head of [s], when there is one: [e] or [E], an
    optional sign and at least one digit. *)
Definition exponent_part (s : jsstring) : Z :=
  match s with
  | c :: r =>
      if (c =? 101)%N || (c =? 69)%N then
        let '(negative, r') := strip_sign r in
        match fst (span_digits 10 r') with
        | [] => 0
        | ds => let e := digits_value 10 ds in if negative then - e else e
        end
      else 0
  | [] => 0
  end.

(** The Number a decimal literal [m * 10^e] rounds to. *)
Definition of_decimal (m e : Z) : number :=
  match m with
  | Zpos p =>
      match e with
      | Zneg k => of_ratio p (10 ^ k)%positive
      | _ => of_Z (m * 10 ^ e)
      end
  | _ => zero
  end.

(** The value of the longest prefix that is an unsigned decimal literal:
    [Infinity], or digits with an optional fraction and exponent. *)
Definition unsigned_decimal (s : jsstring) : number :=
  match strip_prefix (lit "Infinity") s with
  | Some _ => Infinity
  | None =>
      let '(int_digits, r1) := span_digits 10 s in
      let '(frac_digits, r2) :=
        match r1 with
        | 46%N :: r => span_digits 10 r
        | _ => ([], r1)
        end in
      match int_digits ++ frac_digits with
      | [] => NaN
      | ds =>
          of_decimal (digits_value 10 ds)
                     (exponent_part r2 - Z.of_nat (List.length frac_digits))
      end
  end.

Definition parseFloat (s : jsstring) : number :=
  let '(negative, s1) := strip_sign (trimStart s) in
  let v := unsigned_decimal s1 in
  if negative then neg v else v.

End JS.

(* ===================================================================== *)
(** * Asynchronous code: exceptions, component state, calls out *)
(* ===================================================================== *)

Module Eff.
Import JS.

(** A thrown value: an [Error] instance with its [message], or any other
    value (a plain object, say), kept by a printed form. *)
Inductive thrown : Type :=
| ErrorObject (message : jsstring)
| OtherValue (repr : jsstring).

(** [new Error(msg)]. *)
Definition Error (msg : string) : thrown := ErrorObject (lit msg).

(** [err instanceof Error ? err.message : fallback]. *)
Definition message_or (err : thrown) (fallback : string) : jsstring :=
  match err with
  | ErrorObject m => m
  | OtherValue _ => lit fallback
  end.

(** How a block of code ends. *)
Inductive outcome (A : Type) : Type :=
| Returned (a : A)
| Thrown (e : thrown).
Arguments Thrown {A} e.

(** Synchronous code that may throw. *)
Definition obind {A B} (m : outcome A) (k : A -> outcome B) : outcome B :=
  match m with
  | Returned a => k a
  | Thrown e => Thrown e
  end.

(** [if (c) throw new Error(msg)]. *)
Definition throw_if (c : bool) (msg : string) : outcome unit :=
  if c then Thrown (Error msg) else Returned tt.

Section Program.
(** The calls a component makes out of itself, and what each answers. *)
Variable Q : Type.
Variable R : Q -> Type.

(** A run of asynchronous code: it returns, or makes a call and goes on
    from the answer. *)
Inductive io (A : Type) : Type :=
| Ret (a : A)
| Call (q : Q) (k : R q -> io A).
Arguments Ret {A} a.
Arguments Call {A} q k.

Fixpoint io_bind {A B} (m : io A) (k : A -> io B) : io B :=
  match m with
  | Ret a => k a
  | Call q c => Call q (fun r => io_bind (c r) k)
  end.

(** Code over a component state [St]: state updates made before a throw
    stay made. *)
Variable St : Type.
Definition M (A : Type) : Type := St -> io (outcome A * St).

Definition ret {A} (a : A) : M A := fun s => Ret (Returned a, s).
Definition throw {A} (e : thrown) : M A := fun s => Ret (Thrown e, s).
Definition bind {A B} (m : M A) (k : A -> M B) : M B :=
  fun s => io_bind (m s) (fun '(o, s') =>
    match o with
    | Returned a => k a s'
    | Thrown e => Ret (Thrown e, s')
    end).
Definition get : M St := fun s => Ret (Returned s, s).
Definition modify (f : St -> St) : M unit := fun s => Ret (Returned tt, f s).
Definition lift {A} (o : outcome A) : M A := fun s => Ret (o, s).
(** [await] of a call. *)
Definition call (q : Q) : M (R q) := fun s => Call q (fun r => Ret (Returned r, s)).

(** [try { body } catch (err) { handler }]. *)
Definition try_catch {A} (body : M A) (handler : thrown -> M A) : M A :=
  fun s => io_bind (body s) (fun '(o, s') =>
    match o with
    | Returned a => Ret (Returned a, s')
    | Thrown e => handler e s'
    end).

(** [try { body } finally { cleanup }]. *)
Definition try_finally {A} (body : M A) (cleanup : M unit) : M A :=
  fun s => io_bind (body s) (fun '(o, s') =>
    io_bind (cleanup s') (fun '(c, s'') =>
      match c with
      | Returned _ => Ret (o, s'')
      | Thrown e => Ret (Thrown e, s'')
      end)).

(** ** Running against an environment *)

Section Run.
(** The environment: its state, and how it answers each call. *)
Variable W : Type.
Variable answer : forall q : Q, W -> R q * W.

(** The result, the environment afterwards and the calls made, in
    order. *)
Fixpoint run {A} (m : io A) (w : W) : A * W * list Q :=
  match m with
  | Ret a => (a, w, [])
  | Call q k =>
      let '(r, w1) := answer q w in
      let '(a, w2, calls) := run (k r) w1 in
      (a, w2, q :: calls)
  end.
End Run.
End Program.

Arguments Ret {Q R A} a.
Arguments Call {Q R A} q k.
Arguments ret {Q R St A} a.
Arguments throw {Q R St A} e.
Arguments get {Q R St}.
Arguments modify {Q R St} f.
Arguments lift {Q R St A} o.
Arguments call {Q R St} q.

Declare Scope eff_scope.
Delimit Scope eff_scope with eff.
Notation "x <- m ;; k" := (bind m (fun x => k))
  (at level 61, m at next level, right associativity) : eff_scope.
Notation "m ;; k" := (bind m (fun _ => k))
  (at level 61, right associativity) : eff_scope.
Notation "m ;;; k" := (obind m (fun _ => k))
  (at level 61, right associativity) : eff_scope.

End Eff.

(* ===================================================================== *)
(** * The form: src/components/admin/AddEditPackageModal.tsx *)
(* ===================================================================== *)

Module Form.
Import JS Eff.
Local Open Scope eff_scope.

(** ** State and props *)

(** The [useState] cells of the component (lines 20 to 28). *)
Record state : Type := {
  title : jsstring;
  description : jsstring;
  duration : jsstring;
  price : jsstring;
  mainImageUrl : jsstring;
  selectedDestinationId : jsstring;
  itineraryDescriptions : list jsstring;
  loading : bool;
  error : jsstring
}.

Definition setError (msg : jsstring) (st : state) : state :=
  {| title := title st; description := description st;
     duration := duration st; price := price st;
     mainImageUrl := mainImageUrl st;
     selectedDestinationId := selectedDestinationId st;
     itineraryDescriptions := itineraryDescriptions st;
     loading := loading st; error := msg |}.

Definition setLoading (b : bool) (st : state) : state :=
  {| title := title st; description := description st;
     duration := duration st; price := price st;
     mainImageUrl := mainImageUrl st;
     selectedDestinationId := selectedDestinationId st;
     itineraryDescriptions := itineraryDescriptions st;
     loading := b; error := error st |}.

(** What [handleSubmit] reads of the [package] prop, which the source
    types as [any]: [pkg?.id] and [pkg?.rating] ([None] is [undefined]). *)
Record package_prop : Type := {
  id : option jsstring;
  rating : option number
}.

Record Props : Type := {
  pkg : option package_prop
}.

(** [pkg?.id] and [pkg?.rating]. *)
Definition pkg_id (props : Props) : option jsstring :=
  match pkg props with Some p => id p | None => None end.
Definition pkg_rating (props : Props) : option number :=
  match pkg props with Some p => rating p | None => None end.

(** The object handed to [onSave] (lines 121 to 135). *)
Module SaveData.
Record t : Type := {
  id : option jsstring;
  destination_id : jsstring;
  title : jsstring;
  description : jsstring;
  duration : number;
  price : number;
  main_image_url : jsstring;
  rating : number;
  itineraryDescriptions : list jsstring
}.
End SaveData.

(** The callbacks of the props. Either may throw; [onSave]'s promise may
    reject. *)
Inductive callback : Type :=
| onSave (data : SaveData.t)
| onClose.

Definition callback_result (c : callback) : Type := outcome unit.

Definition M := Eff.M callback_result state.

(** [await c], rethrowing what the callback threw. *)
Definition invoke (c : callback) : M unit :=
  r <- call (R := callback_result) c ;; lift r.

(** ** The duration effect (lines 38 to 56) *)

(** [while (newDescriptions.length < days) newDescriptions.push('')],
    by the number of entries still missing. *)
Fixpoint push_empty (missing : nat) (l : list jsstring) : list jsstring :=
  match missing with
  | O => l
  | S k => push_empty k (l ++ [lit ""])
  end.

(** What V8 throws when an Array is asked to take a length that is not an
    integer below [2^32]. *)
Definition invalid_array_length : thrown := Error "Invalid array length".

(** The updater handed to [setItineraryDescriptions] at line 41. A
    [days] that is no Array length (above [2^32 - 1], or not an integer)
    makes [push] or the assignment to [length] throw a RangeError. *)
Definition resize (days : number) (prev : list jsstring) : outcome (list jsstring) :=
  match to_array_length days with
  | Some n =>
      let n := Z.to_nat n in
      let newDescriptions := push_empty (n - List.length prev) prev in
      Returned (if (n <? List.length newDescriptions)%nat
                then firstn n newDescriptions
                else newDescriptions)
  | None => Thrown invalid_array_length
  end.

(** The effect on [duration]: the itinerary list it leaves, given the one
    before. *)
Definition duration_effect (duration : jsstring) (prev : list jsstring)
  : outcome (list jsstring) :=
  let days := or_else (parseInt duration) zero in
  if gt days zero then resize days prev
  else Returned [].

(** ** [handleItineraryChange] (lines 145 to 151) *)

(** An array index is an integer below [2^32 - 1] (ECMA-262, 6.1.7). *)
Definition is_array_index (index : nat) : bool :=
  (Z.of_nat index <? max_array_length)%Z.

(** The element of index [index] defined as [value]: past the end the
    Array grows, and the entries skipped are holes ([None]). *)
Fixpoint set_element (a : list jsstring) (index : nat) (value : jsstring)
  : list (option jsstring) :=
  match a, index with
  | _ :: r, O => Some value :: List.map Some r
  | x :: r, S i => Some x :: set_element r i value
  | [], O => [Some value]
  | [], S i => None :: set_element [] i value
  end.

(** [a[index] = value] on a copy of [a] (ECMA-262, 10.4.2.1). An element
    the Array has is overwritten (its index is an array index, the length
    of an Array being at most [2^32 - 1]); at an array index past the end
    the Array grows; any other index names an ordinary property, and the
    elements and the length stay as they are. *)
Definition array_set (a : list jsstring) (index : nat) (value : jsstring)
  : list (option jsstring) :=
  if (index <? List.length a)%nat || is_array_index index
  then set_element a index value
  else List.map Some a.

Definition handleItineraryChange (index : nat) (value : jsstring)
  (prev : list jsstring) : list (option jsstring) :=
  array_set prev index value.

(** ** [handleSubmit] (lines 81 to 143) *)

(** Lines 88 to 119: the checks, in the order of the source. *)
Definition validate (st : state) : outcome unit :=
  throw_if (negb (truthy_string (selectedDestinationId st)))
    "Please select a destination" ;;;
  throw_if (blank (title st))
    "Title is required" ;;;
  throw_if (blank (description st))
    "Description is required" ;;;
  throw_if (negb (truthy_string (duration st)) || le (parseInt (duration st)) zero)
    "Valid duration is required" ;;;
  throw_if (negb (truthy_string (price st)) || le (parseFloat (price st)) zero)
    "Valid price is required" ;;;
  throw_if (blank (mainImageUrl st))
    "Main image URL is required" ;;;
  throw_if (List.length (itineraryDescriptions st) =? 0)%nat
    "At least one itinerary day is required" ;;;
  throw_if (existsb blank (itineraryDescriptions st))
    "Please fill in all itinerary descriptions".

(** Lines 121 to 135: the object [onSave] receives. *)
Definition saveData (props : Props) (st : state) : SaveData.t :=
  {| SaveData.id := if truthy_opt (pkg_id props) then pkg_id props else None;
     SaveData.destination_id := selectedDestinationId st;
     SaveData.title := trim (title st);
     SaveData.description := trim (description st);
     SaveData.duration := parseInt (duration st);
     SaveData.price := parseFloat (price st);
     SaveData.main_image_url := trim (mainImageUrl st);
     SaveData.rating :=
       match pkg_rating props with
       | Some r => or_else r zero
       | None => zero
       end;
     SaveData.itineraryDescriptions := List.map trim (itineraryDescriptions st) |}.

(** The handler. The field values are those the render closed over; the
    handler itself writes [error] and [loading] only. *)
Definition handleSubmit (props : Props) : M unit :=
  st <- get ;;
  modify (setError (lit "")) ;;
  modify (setLoading true) ;;
  try_finally
    (try_catch
       (lift (validate st) ;;
        invoke (onSave (saveData props st)) ;;
        invoke onClose)
       (fun err =>
          modify (setError (message_or err "An error occurred while saving"))))
    (modify (setLoading false)).

(** One submit, from state [st], against the callbacks' behaviour: the
    state after it, the environment after it and the callbacks invoked. *)
Definition submit {W : Type} (answer : forall c : callback, W -> callback_result c * W)
  (props : Props) (st : state) (w : W) : state * W * list callback :=
  let '(_, st', w', calls) := run answer (handleSubmit props st) w in
  (st', w', calls).

(** ** Vocabulary of the statements *)

(** The checks of lines 88 to 119 as a table: when each fails, and its
    message. *)
Definition checks (st : state) : list (bool * string) :=
  [ (negb (truthy_string (selectedDestinationId st)), "Please select a destination");
    (blank (title st), "Title is required");
    (blank (description st), "Description is required");
    (negb (truthy_string (duration st)) || le (parseInt (duration st)) zero,
     "Valid duration is required");
    (negb (truthy_string (price st)) || le (parseFloat (price st)) zero,
     "Valid price is required");
    (blank (mainImageUrl st), "Main image URL is required");
    ((List.length (itineraryDescriptions st) =? 0)%nat,
     "At least one itinerary day is required");
    (existsb blank (itineraryDescriptions st),
     "Please fill in all itinerary descriptions") ]%string.

(** The message of the first check that fails. *)
Definition first_failure (st : state) : option string :=
  option_map snd (find fst (checks st)).

Definition is_empty {A : Type} (l : list A) : bool :=
  match l with [] => true | _ :: _ => false end.

(** A text of white space throughout (the empty text is one). *)
Definition is_blank (s : jsstring) : bool := forallb is_whitespace s.

(** The checks as the specification lists them, in its order: when each
    fails, and the message the source has for it. A duration or a price
    is present when it is not the empty string, and is compared as the
    Number the source parses it to. *)
Definition claimed_checks (st : state) : list (bool * string) :=
  [ (is_empty (selectedDestinationId st), "Please select a destination");
    (is_blank (title st), "Title is required");
    (is_blank (description st), "Description is required");
    (negb (negb (is_empty (duration st)) && gt (parseInt (duration st)) zero),
     "Valid duration is required");
    (negb (negb (is_empty (price st)) && gt (parseFloat (price st)) zero),
     "Valid price is required");
    (is_blank (mainImageUrl st), "Main image URL is required");
    (is_empty (itineraryDescriptions st),
     "At least one itinerary day is required");
    (existsb is_blank (itineraryDescriptions st),
     "Please fill in all itinerary descriptions") ]%string.

(** Some required field is blank: no destination, a text, a duration or
    a price of white space only, no itinerary entry, or a blank one. *)
Definition required_field_blank (st : state) : Prop :=
  selectedDestinationId st = [] \/ is_blank (title st) = true \/
  is_blank (description st) = true \/ is_blank (duration st) = true \/
  is_blank (price st) = true \/ is_blank (mainImageUrl st) = true \/
  itineraryDescriptions st = [] \/
  (exists d, In d (itineraryDescriptions st) /\ is_blank d = true).

(** *** The number inputs (lines 221 to 244) *)

(** The duration and the price are the values of [<input type="number">]
    controls. Such a value is the empty string unless what was typed is
    a valid floating-point number (HTML, 2.3.4.3 and 4.10.5.1.12): an
    optional [-]; digits, or a [.] followed by digits, or both; then
    optionally [e] or [E], an optional sign and digits. The decimal
    string of a finite Number, from which an edit starts (lines 22 and
    23), is one. *)
Definition strip_minus (s : jsstring) : jsstring :=
  match s with
  | c :: r => if (c =? minus_sign)%N then r else s
  | [] => []
  end.

Definition valid_exponent (s : jsstring) : bool :=
  match s with
  | [] => true
  | c :: r =>
      ((c =? 101) || (c =? 69))%N &&
      (let '(ds, rest) := span_digits 10 (snd (strip_sign r)) in
       negb (is_empty ds) && is_empty rest)
  end.

Definition valid_unsigned (s : jsstring) : bool :=
  let '(int_digits, r1) := span_digits 10 s in
  match r1 with
  | 46%N :: r =>
      let '(frac_digits, r2) := span_digits 10 r in
      negb (is_empty frac_digits) && valid_exponent r2
  | _ => negb (is_empty int_digits) && valid_exponent r1
  end.

Definition valid_floating_point_number (s : jsstring) : bool :=
  valid_unsigned (strip_minus s).

(** What the cell of a number input can hold. *)
Definition number_input_value (s : jsstring) : Prop :=
  s = [] \/ valid_floating_point_number s = true.

(** A number written with digits before any point, as "3", "2.9" and
    "1e2" are and ".5" is not. *)
Definition has_integer_part (s : jsstring) : bool :=
  negb (is_empty (fst (span_digits 10 (strip_minus s)))).

(** What the cell of a number input holds when the number typed has an
    integer part. *)
Definition whole_number_input_value (s : jsstring) : Prop :=
  s = [] \/
  (valid_floating_point_number s = true /\ has_integer_part s = true).

(** The checks of [handleSubmit] reject the state. *)
Definition fails_validation (st : state) : Prop :=
  exists e, validate st = Thrown e.

(** The field cells of two states hold the same values. *)
Definition same_fields (a b : state) : Prop :=
  title a = title b /\ description a = description b /\
  duration a = duration b /\ price a = price b /\
  mainImageUrl a = mainImageUrl b /\
  selectedDestinationId a = selectedDestinationId b /\
  itineraryDescriptions a = itineraryDescriptions b.

(** A form with a price of zero, no image URL and a blank second day:
    three checks fail, the price's first. *)
Definition free_form : state :=
  {| title := lit "Bali Adventure";
     description := lit "Island tour";
     duration := lit "2";
     price := lit "0";
     mainImageUrl := lit "";
     selectedDestinationId := lit "D1";
     itineraryDescriptions := [lit "Day1"; lit " "];
     loading := false;
     error := lit "" |}.

(** A form filled in but for the price, whose input is blank. *)
Definition unpriced_form : state :=
  {| title := lit "Bali Adventure";
     description := lit "Island tour";
     duration := lit "3";
     price := lit "";
     mainImageUrl := lit "https://x/y.jpg";
     selectedDestinationId := lit "D1";
     itineraryDescriptions := [lit "Day1"; lit "Day2"; lit "Day3"];
     loading := false;
     error := lit "" |}.

(** The form as typing ".1e1" for the duration leaves it, in create
    mode: a valid floating-point number, equal to 1, from which
    [parseInt] reads no digit; the duration effect has emptied the
    itinerary list for it. *)
Definition pointed_form : state :=
  {| title := lit "Bali Adventure";
     description := lit "Island tour";
     duration := lit ".1e1";
     price := lit "499.99";
     mainImageUrl := lit "https://x/y.jpg";
     selectedDestinationId := lit "D1";
     itineraryDescriptions := [];
     loading := false;
     error := lit "" |}.

(** The same form with a price, and a duration that is no integer. *)
Definition fractional_duration_form : state :=
  {| title := lit "Bali Adventure";
     description := lit "Island tour";
     duration := lit "2.9";
     price := lit "499.99";
     mainImageUrl := lit "https://x/y.jpg";
     selectedDestinationId := lit "D1";
     itineraryDescriptions := [lit "Day1"; lit "Day2"];
     loading := false;
     error := lit "" |}.

Definition create_mode : Props := {| pkg := None |}.

(** Callbacks that return, whatever they are given. *)
Definition accepting (c : callback) (w : unit) : callback_result c * unit :=
  (Returned tt, w).

(** An [onSave] whose promise rejects with [err]. *)
Definition rejecting (err : thrown) (c : callback) (w : unit)
  : callback_result c * unit :=
  match c with
  | onSave _ => (Thrown err, w)
  | onClose => (Returned tt, w)
  end.

End Form.

(* ===================================================================== *)
(** * The hook: src/hooks/usePackages.ts *)
(* ===================================================================== *)

Module Hook.
Import JS Eff.
Local Open Scope eff_scope.

(** ** Rows and requests *)

(** Modelled from the spec: the row type [Tables['packages']] of
    [src/lib/supabase.ts], which is not among the source files; the
    columns are those of the spec's data model (section 3). *)
Module Package.
Record t : Type := {
  id : jsstring;
  destination_id : jsstring;
  title : jsstring;
  description : jsstring;
  duration : number;
  price : number;
  main_image_url : jsstring;
  rating : number;
  created_at : jsstring;
  updated_at : jsstring
}.
End Package.

(** The [pkg] argument of the composite save (line 138): a row without
    [created_at] and [updated_at], whose [id] is optional. *)
Module PackageInput.
Record t : Type := {
  id : option jsstring;
  destination_id : jsstring;
  title : jsstring;
  description : jsstring;
  duration : number;
  price : number;
  main_image_url : jsstring;
  rating : number
}.
End PackageInput.

(** Modelled from the spec: a row of the [package_itinerary] table
    (section 6: package identifier, day count, ordered description list). *)
Module Itinerary.
Record t : Type := {
  id : jsstring;
  package_id : jsstring;
  no_of_days : number;
  description : list jsstring
}.
End Itinerary.

(** The object literal of an itinerary insert (lines 107 to 111). *)
Module ItineraryInsert.
Record t : Type := {
  package_id : jsstring;
  no_of_days : number;
  description : list jsstring
}.
End ItineraryInsert.

(** The object literal of an itinerary update: the columns it names
    ([None] for a column left out). *)
Module ItineraryChanges.
Record t : Type := {
  no_of_days : option number;
  description : option (list jsstring)
}.
End ItineraryChanges.

(** The queries the hook sends to the backend. *)
Inductive request : Type :=
(** [from('packages').select('*').order('created_at', desc)], with
    [.eq('destination_id', d)] when a destination is given *)
| select_packages (destination_id : option jsstring)
(** [from('packages').insert([pkg]).select().single()] *)
| insert_package (pkg : PackageInput.t)
(** [from('packages').update(updates).eq('id', id).select().single()] *)
| update_package (id : jsstring) (updates : PackageInput.t)
(** [from('packages').delete().eq('id', id)] *)
| delete_package (id : jsstring)
(** [from('package_itinerary').select('id').eq('package_id', p).maybeSingle()] *)
| select_itinerary_id (package_id : jsstring)
(** [from('package_itinerary').update(changes).eq('package_id', p)] *)
| update_itinerary (package_id : jsstring) (changes : ItineraryChanges.t)
(** [from('package_itinerary').insert([row])] *)
| insert_itinerary (row : ItineraryInsert.t)
(** [from('package_itinerary').select('*').eq('package_id', p).maybeSingle()] *)
| select_itinerary (package_id : jsstring).

(** What the backend answers: [{ data, error: null }] or
    [{ data: null, error }]. *)
Inductive response (D : Type) : Type :=
| Success (data : D)
| Failure (error : thrown).
Arguments Failure {D} error.

(** The [data] of each query's answer ([None] is [null]). *)
Definition data_of (q : request) : Type :=
  match q with
  | select_packages _ => option (list Package.t)
  | insert_package _ => Package.t
  | update_package _ _ => Package.t
  | delete_package _ => unit
  | select_itinerary_id _ => option jsstring
  | update_itinerary _ _ => unit
  | insert_itinerary _ => unit
  | select_itinerary _ => option Itinerary.t
  end.

Definition reply (q : request) : Type := response (data_of q).

(** ** State *)

(** The [useState] cells of the hook (lines 6 to 8), and the console. *)
Record state : Type := {
  packages : list Package.t;
  loading : bool;
  error : option jsstring;
  console : list (jsstring * thrown)
}.

Definition setPackages (f : list Package.t -> list Package.t) (st : state) : state :=
  {| packages := f (packages st); loading := loading st;
     error := error st; console := console st |}.

Definition setLoading (b : bool) (st : state) : state :=
  {| packages := packages st; loading := b;
     error := error st; console := console st |}.

Definition setError (e : option jsstring) (st : state) : state :=
  {| packages := packages st; loading := loading st;
     error := e; console := console st |}.

Definition log (label : string) (err : thrown) (st : state) : state :=
  {| packages := packages st; loading := loading st;
     error := error st; console := console st ++ [(lit label, err)] |}.

Definition M := Eff.M reply state.

(** [console.error(label, err)]. *)
Definition console_error (label : string) (err : thrown) : M unit :=
  modify (log label err).

(** [const { data, error } = await q; if (error) throw error], giving
    [data]. *)
Definition query (q : request) : M (data_of q) :=
  r <- call (R := reply) q ;;
  match r with
  | Success d => ret d
  | Failure e => throw e
  end.

(** [const { data } = await q]: the error is not read. *)
Definition query_data (q : request) (none : data_of q) : M (data_of q) :=
  r <- call (R := reply) q ;;
  match r with
  | Success d => ret d
  | Failure _ => ret none
  end.

(** ** The operations *)

(** [data || []]. *)
Definition rows_of (data : option (list Package.t)) : list Package.t :=
  match data with Some rows => rows | None => [] end.

(** Lines 10 to 30. [destinationId] is the hook's argument. *)
Definition fetchPackages (destinationId : option jsstring) : M unit :=
  try_finally
    (try_catch
       (data <- query (select_packages
                         (if truthy_opt destinationId then destinationId else None)) ;;
        modify (setPackages (fun _ => rows_of data)))
       (fun err => modify (setError (Some (message_or err "An error occurred")))))
    (modify (setLoading false)).

(** Lines 32 to 48. *)
Definition addPackage (pkg : PackageInput.t) : M Package.t :=
  try_catch
    (packageData <- query (insert_package pkg) ;;
     modify (setPackages (fun prev => packageData :: prev)) ;;
     ret packageData)
    (fun err => console_error "Error adding package:" err ;; throw err).

(** Lines 50 to 67. *)
Definition updatePackage (id : jsstring) (updates : PackageInput.t) : M Package.t :=
  try_catch
    (packageData <- query (update_package id updates) ;;
     modify (setPackages
               (List.map (fun p => if string_eqb (Package.id p) id then packageData else p))) ;;
     ret packageData)
    (fun err => console_error "Error updating package:" err ;; throw err).

(** Lines 69 to 82. *)
Definition deletePackage (id : jsstring) : M unit :=
  try_catch
    (query (delete_package id) ;;
     modify (setPackages (List.filter (fun p => negb (string_eqb (Package.id p) id)))))
    (fun err => console_error "Error deleting package:" err ;; throw err).

(** Lines 84 to 119. *)
Definition addOrUpdateItinerary (packageId : jsstring) (description : list jsstring)
  : M unit :=
  try_catch
    (existingData <- query_data (select_itinerary_id packageId) None ;;
     match existingData with
     | Some _ =>
         query (update_itinerary packageId
                  {| ItineraryChanges.no_of_days := None;
                     ItineraryChanges.description := Some description |})
     | None =>
         query (insert_itinerary
                  {| ItineraryInsert.package_id := packageId;
                     ItineraryInsert.no_of_days := of_Z (Z.of_nat (List.length description));
                     ItineraryInsert.description := description |})
     end)
    (fun err => console_error "Error saving itinerary:" err ;; throw err).

(** Lines 121 to 135. *)
Definition getItinerary (packageId : jsstring) : M (option Itinerary.t) :=
  try_catch
    (query (select_itinerary packageId))
    (fun err => console_error "Error fetching itinerary:" err ;; throw err).

(** [pkg.id] when it is truthy: the test of line 153. *)
Definition truthy_id (pkg : PackageInput.t) : option jsstring :=
  match PackageInput.id pkg with
  | Some id => if truthy_string id then Some id else None
  | None => None
  end.

(** Lines 137 to 171. *)
Definition addOrUpdatePackageWithItinerary (pkg : PackageInput.t)
  (itineraryDescriptions : list jsstring) : M Package.t :=
  try_catch
    (lift (throw_if (List.length itineraryDescriptions =? 0)%nat
             "Itinerary descriptions are required") ;;
     lift (throw_if (existsb blank itineraryDescriptions)
             "All itinerary descriptions must be filled out") ;;
     savedPackage <-
       (match truthy_id pkg with
        | Some id => updatePackage id pkg
        | None => addPackage pkg
        end) ;;
     addOrUpdateItinerary (Package.id savedPackage) itineraryDescriptions ;;
     ret savedPackage)
    (fun err => console_error "Error saving package with itinerary:" err ;; throw err).

(** ** Vocabulary of the statements *)

(** [after] is [before] without its entries of identifier [id], the
    others kept as they are and in their order. *)
Inductive removes (id : jsstring) : list Package.t -> list Package.t -> Prop :=
| removes_nil : removes id [] []
| removes_drop p before after :
    Package.id p = id -> removes id before after -> removes id (p :: before) after
| removes_keep p before after :
    Package.id p <> id -> removes id before after ->
    removes id (p :: before) (p :: after).

(** The two writes of [addOrUpdateItinerary]: the update of lines 95 to
    100 and the insert of lines 105 to 111. *)
Definition itinerary_update (packageId : jsstring) (description : list jsstring)
  : request :=
  update_itinerary packageId
    {| ItineraryChanges.no_of_days := None;
       ItineraryChanges.description := Some description |}.

Definition itinerary_insert (packageId : jsstring) (description : list jsstring)
  : request :=
  insert_itinerary
    {| ItineraryInsert.package_id := packageId;
       ItineraryInsert.no_of_days := of_Z (Z.of_nat (List.length description));
       ItineraryInsert.description := description |}.

End Hook.

(* ===================================================================== *)
(** * A reference backend *)
(* ===================================================================== *)

Module Backend.
Import JS Eff Hook.

(** Modelled from the spec: the backend collaborator (section 6), which
    is outside the repository: a store of the two tables that answers
    each query the way a table API does (an update writes the columns it
    names, a [single] answer needs exactly one row, a [maybeSingle]
    answer at most one), and that can be told to fail requests. *)
Record db : Type := {
  packages_table : list Package.t;      (* newest first *)
  itinerary_table : list Itinerary.t;
  clock : N;                            (* source of identifiers and stamps *)
  faults : list (option thrown)         (* per request to come: the error it fails with *)
}.

Definition decimal (n : N) : jsstring := lit (NilEmpty.string_of_uint (N.to_uint n)).

Definition no_single_row : thrown :=
  OtherValue (lit "PGRST116: JSON object requested, multiple (or no) rows returned").
Definition duplicate_key : thrown :=
  OtherValue (lit "23505: duplicate key value violates unique constraint").

Definition has_id (id : jsstring) (p : Package.t) : bool := string_eqb (Package.id p) id.
Definition of_package (id : jsstring) (r : Itinerary.t) : bool :=
  string_eqb (Itinerary.package_id r) id.

Definition new_package (id stamp : jsstring) (pkg : PackageInput.t) : Package.t :=
  {| Package.id := id;
     Package.destination_id := PackageInput.destination_id pkg;
     Package.title := PackageInput.title pkg;
     Package.description := PackageInput.description pkg;
     Package.duration := PackageInput.duration pkg;
     Package.price := PackageInput.price pkg;
     Package.main_image_url := PackageInput.main_image_url pkg;
     Package.rating := PackageInput.rating pkg;
     Package.created_at := stamp;
     Package.updated_at := stamp |}.

Definition updated_package (old : Package.t) (stamp : jsstring) (updates : PackageInput.t)
  : Package.t :=
  {| Package.id := match PackageInput.id updates with Some i => i | None => Package.id old end;
     Package.destination_id := PackageInput.destination_id updates;
     Package.title := PackageInput.title updates;
     Package.description := PackageInput.description updates;
     Package.duration := PackageInput.duration updates;
     Package.price := PackageInput.price updates;
     Package.main_image_url := PackageInput.main_image_url updates;
     Package.rating := PackageInput.rating updates;
     Package.created_at := Package.created_at old;
     Package.updated_at := stamp |}.

(** An update writes the columns the changes name and no other. *)
Definition changed_itinerary (changes : ItineraryChanges.t) (r : Itinerary.t) : Itinerary.t :=
  {| Itinerary.id := Itinerary.id r;
     Itinerary.package_id := Itinerary.package_id r;
     Itinerary.no_of_days :=
       match ItineraryChanges.no_of_days changes with
       | Some n => n
       | None => Itinerary.no_of_days r
       end;
     Itinerary.description :=
       match ItineraryChanges.description changes with
       | Some d => d
       | None => Itinerary.description r
       end |}.

Definition with_packages (t : list Package.t) (d : db) : db :=
  {| packages_table := t; itinerary_table := itinerary_table d;
     clock := N.succ (clock d); faults := faults d |}.

Definition with_itineraries (t : list Itinerary.t) (d : db) : db :=
  {| packages_table := packages_table d; itinerary_table := t;
     clock := N.succ (clock d); faults := faults d |}.

Definition with_faults (f : list (option thrown)) (d : db) : db :=
  {| packages_table := packages_table d; itinerary_table := itinerary_table d;
     clock := clock d; faults := f |}.

(** A query served. *)
Definition perform (q : request) (d : db) : reply q * db :=
  match q return reply q * db with
  | select_packages None => (Success (Some (packages_table d)), d)
  | select_packages (Some dest) =>
      (Success (Some (filter (fun p => string_eqb (Package.destination_id p) dest)
                             (packages_table d))), d)
  | insert_package pkg =>
      let id := match PackageInput.id pkg with
                | Some i => i
                | None => lit "pkg-" ++ decimal (clock d)
                end in
      if existsb (has_id id) (packages_table d) then (Failure duplicate_key, d)
      else
        let row := new_package id (decimal (clock d)) pkg in
        (Success row, with_packages (row :: packages_table d) d)
  | update_package id updates =>
      match filter (has_id id) (packages_table d) with
      | [old] =>
          let row := updated_package old (decimal (clock d)) updates in
          (Success row,
           with_packages (map (fun p => if has_id id p then row else p) (packages_table d)) d)
      | _ => (Failure no_single_row, d)
      end
  | delete_package id =>
      (Success tt, with_packages (filter (fun p => negb (has_id id p)) (packages_table d)) d)
  | select_itinerary_id p =>
      match filter (of_package p) (itinerary_table d) with
      | [] => (Success None, d)
      | [r] => (Success (Some (Itinerary.id r)), d)
      | _ => (Failure no_single_row, d)
      end
  | update_itinerary p changes =>
      (Success tt,
       with_itineraries
         (map (fun r => if of_package p r then changed_itinerary changes r else r)
              (itinerary_table d)) d)
  | insert_itinerary row =>
      (Success tt,
       with_itineraries
         (itinerary_table d ++
          [{| Itinerary.id := lit "itin-" ++ decimal (clock d);
              Itinerary.package_id := ItineraryInsert.package_id row;
              Itinerary.no_of_days := ItineraryInsert.no_of_days row;
              Itinerary.description := ItineraryInsert.description row |}]) d)
  | select_itinerary p =>
      match filter (of_package p) (itinerary_table d) with
      | [] => (Success None, d)
      | [r] => (Success (Some r), d)
      | _ => (Failure no_single_row, d)
      end
  end.

(** A query answered: failed when the next fault says so, served
    otherwise. *)
Definition answer (q : request) (d : db) : reply q * db :=
  match faults d with
  | Some e :: rest => (Failure e, with_faults rest d)
  | None :: rest => perform q (with_faults rest d)
  | [] => perform q d
  end.

(** An empty store that fails nothing. *)
Definition empty : db :=
  {| packages_table := []; itinerary_table := []; clock := 1; faults := [] |}.

(** ** Sample data *)

Definition initial : state :=
  {| packages := []; loading := true; error := None; console := [] |}.

Definition bali : PackageInput.t :=
  {| PackageInput.id := None;
     PackageInput.destination_id := lit "D1";
     PackageInput.title := lit "Bali Adventure";
     PackageInput.description := lit "Island tour";
     PackageInput.duration := of_Z 3;
     PackageInput.price := of_Z 500;
     PackageInput.main_image_url := lit "https://x/y.jpg";
     PackageInput.rating := zero |}.

(** The package above as the row of identifier [P1], and the same input
    carrying that identifier. *)
Definition bali_row : Package.t := new_package (lit "P1") (lit "0") bali.

Definition bali_edit : PackageInput.t :=
  {| PackageInput.id := Some (lit "P1");
     PackageInput.destination_id := lit "D1";
     PackageInput.title := lit "Bali Adventure";
     PackageInput.description := lit "Island tour";
     PackageInput.duration := of_Z 2;
     PackageInput.price := of_Z 500;
     PackageInput.main_image_url := lit "https://x/y.jpg";
     PackageInput.rating := zero |}.

Definition rome_row : Package.t :=
  {| Package.id := lit "P2";
     Package.destination_id := lit "D2";
     Package.title := lit "Rome";
     Package.description := lit "City break";
     Package.duration := of_Z 2;
     Package.price := of_Z 300;
     Package.main_image_url := lit "https://x/r.jpg";
     Package.rating := zero;
     Package.created_at := lit "0";
     Package.updated_at := lit "0" |}.

Definition five_days : list jsstring :=
  [lit "Day1"; lit "Day2"; lit "Day3"; lit "Day4"; lit "Day5"].

Definition two_days : list jsstring := [lit "Day1"; lit "Day2"].

(** A store holding [P1], [P2] and a five-day itinerary for [P1]. *)
Definition stocked : db :=
  {| packages_table := [bali_row; rome_row];
     itinerary_table :=
       [{| Itinerary.id := lit "I1";
           Itinerary.package_id := lit "P1";
           Itinerary.no_of_days := of_Z 5;
           Itinerary.description := five_days |}];
     clock := 7;
     faults := [] |}.

(** The hook once it has fetched that store. *)
Definition fetched : state :=
  {| packages := [bali_row; rome_row]; loading := false; error := None; console := [] |}.

End Backend.

(* ===================================================================== *)
(** * The form's own query: fetchExistingItinerary *)
(* ===================================================================== *)

Module Load.
Import JS Eff.
Local Open Scope eff_scope.

(** What [fetchExistingItinerary] (lines 58 to 79 of the form) reads of
    the row it is given: [data.description] ([None] is [null]). *)
Record itinerary_row : Type := {
  description : option (list jsstring)
}.

(** [from('package_itinerary').select('*').eq('package_id', id).maybeSingle()] *)
Inductive request : Type :=
| select_itinerary (package_id : jsstring).

(** The awaited query: its promise rejects, or it answers with
    [{ data, error }]. *)
Definition reply (q : request) : Type :=
  outcome (Hook.response (option itinerary_row)).

(** The cells of the form, and the console. *)
Record state : Type := {
  form : Form.state;
  console : list (jsstring * thrown)
}.

Definition setItineraryDescriptions (l : list jsstring) (st : state) : state :=
  {| form :=
       {| Form.title := Form.title (form st);
          Form.description := Form.description (form st);
          Form.duration := Form.duration (form st);
          Form.price := Form.price (form st);
          Form.mainImageUrl := Form.mainImageUrl (form st);
          Form.selectedDestinationId := Form.selectedDestinationId (form st);
          Form.itineraryDescriptions := l;
          Form.loading := Form.loading (form st);
          Form.error := Form.error (form st) |};
     console := console st |}.

Definition log (label : string) (err : thrown) (st : state) : state :=
  {| form := form st; console := console st ++ [(lit label, err)] |}.

Definition M := Eff.M reply state.

(** Lines 58 to 79. *)
Definition fetchExistingItinerary (props : Form.Props) : M unit :=
  match Form.pkg_id props with
  | Some id =>
      if truthy_string id then
        try_catch
          (awaited <- call (R := reply) (select_itinerary id) ;;
           answered <- lift awaited ;;
           match answered with
           | Hook.Failure error => modify (log "Error fetching itinerary:" error)
           | Hook.Success (Some data) =>
               modify (setItineraryDescriptions
                         (match description data with Some l => l | None => [] end))
           | Hook.Success None => ret tt
           end)
          (fun err => modify (log "Error fetching itinerary:" err))
      else ret tt
  | None => ret tt
  end.

(** The effect on [pkg?.id] (lines 32 to 36), which runs on mount. *)
Definition mount_effect (props : Form.Props) : M unit :=
  if truthy_opt (Form.pkg_id props) then fetchExistingItinerary props else ret tt.

(** ** Vocabulary of the statements *)

(** The itinerary list a query's answer puts in the form, if any. *)
Definition loaded (a : outcome (Hook.response (option itinerary_row)))
  : option (list jsstring) :=
  match a with
  | Returned (Hook.Success (Some data)) =>
      Some (match description data with Some l => l | None => [] end)
  | _ => None
  end.

(** What a query's answer puts on the console, if anything. *)
Definition reported (a : outcome (Hook.response (option itinerary_row)))
  : option thrown :=
  match a with
  | Returned (Hook.Failure e) => Some e
  | Thrown e => Some e
  | Returned (Hook.Success _) => None
  end.

(** A string that neither starts nor ends with white space. *)
Definition trimmed (s : jsstring) : Prop :=
  (forall c r, s = c :: r -> is_whitespace c = false) /\
  (forall c r, s = r ++ [c] -> is_whitespace c = false).

(** The itinerary list of the form is what the duration effect left for
    the duration of the form. *)
Definition settled (st : Form.state) : Prop :=
  exists prev,
    Form.duration_effect (Form.duration st) prev
    = Returned (Form.itineraryDescriptions st).

(** The package write of the composite save (lines 153 to 159). *)
Definition package_write (pkg : Hook.PackageInput.t) : Hook.M Hook.Package.t :=
  match Hook.truthy_id pkg with
  | Some id => Hook.updatePackage id pkg
  | None => Hook.addPackage pkg
  end.

(** An edit of the package of identifier [P1]. *)
Definition edit_mode : Form.Props :=
  {| Form.pkg := Some {| Form.id := Some (lit "P1"); Form.rating := None |} |}.

(** A query that answers with the row given. *)
Definition answering (row : option itinerary_row) (q : request) (w : unit)
  : reply q * unit :=
  (Returned (Hook.Success row), w).

(** A query whose promise rejects. *)
Definition unreachable (err : thrown) (q : request) (w : unit) : reply q * unit :=
  (Thrown err, w).

End Load.

(* ===================================================================== *)
(** * Facts about the JavaScript values *)
(* ===================================================================== *)

Module JSFacts.
Import JS.

(** What is left of a string after [trimStart] is empty exactly when the
    string is white space throughout. *)
Lemma trimStart_nil (s : jsstring) :
  trimStart s = [] <-> forallb is_whitespace s = true.
Proof.
  induction s as [|c r IH]; cbn.
  - tauto.
  - destruct (is_whitespace c); cbn.
    + exact IH.
    + split; discriminate.
Qed.

Lemma trimStart_suffix (s : jsstring) :
  exists p, s = p ++ trimStart s /\ forallb is_whitespace p = true.
Proof.
  induction s as [|c r [p [E F]]]; cbn.
  - exists []. split; reflexivity.
  - destruct (is_whitespace c) eqn:Hc.
    + exists (c :: p). cbn. rewrite Hc, F. split; [f_equal; exact E | reflexivity].
    + exists []. split; reflexivity.
Qed.

Lemma not_truthy_nil (s : jsstring) : negb (truthy_string s) = true <-> s = [].
Proof. destruct s; cbn; split; congruence. Qed.

Lemma rev_is_nil (A : Type) (l : list A) : rev l = [] <-> l = [].
Proof.
  split; intros H.
  - rewrite <- (rev_involutive l), H. reflexivity.
  - rewrite H. reflexivity.
Qed.

(** [!s.trim()] holds exactly of the strings that are white space
    throughout (the empty one among them). *)
Lemma blank_iff (s : jsstring) :
  blank s = true <-> forallb is_whitespace s = true.
Proof.
  unfold blank, trim, trimEnd.
  rewrite not_truthy_nil.
  etransitivity; [apply rev_is_nil|].
  etransitivity; [apply trimStart_nil|].
  destruct (trimStart_suffix s) as [p [E F]].
  split.
  - intros T. rewrite forallb_forall in T.
    rewrite E, forallb_app, F. cbn.
    apply forallb_forall. intros x Hx. apply T, in_rev. rewrite rev_involutive. exact Hx.
  - intros H. rewrite E, forallb_app in H. apply andb_true_iff in H as [_ H].
    rewrite forallb_forall in H. apply forallb_forall.
    intros x Hx. apply H, in_rev. exact Hx.
Qed.



(** ** Integers as Numbers *)

Lemma digits2_pos_size (p : positive) : digits2_pos p = Pos.size p.
Proof. induction p; cbn; congruence. Qed.

Lemma digits2_pos_shift (p k : positive) :
  digits2_pos (Pos.iter xO p k) = (digits2_pos p + k)%positive.
Proof.
  induction k as [|k IH] using Pos.peano_ind.
  - cbn. lia.
  - rewrite Pos.iter_succ. cbn. rewrite IH. lia.
Qed.

Lemma Zpos_shift (p k : positive) :
  Zpos (Pos.iter xO p k) = Zpos p * 2 ^ Zpos k.
Proof.
  induction k as [|k IH] using Pos.peano_ind.
  - cbn. lia.
  - rewrite Pos.iter_succ, Pos2Z.inj_succ, Z.pow_succ_r by lia.
    rewrite Pos2Z.inj_xO, IH. ring.
Qed.

Lemma digits2_pos_bound (p : positive) (n : Z) :
  0 <= n -> Zpos p < 2 ^ n -> Zpos (digits2_pos p) <= n.
Proof.
  intros Hn H. rewrite digits2_pos_size.
  pose proof (Pos.size_le p) as L.
  apply Pos2Z.pos_le_pos in L. rewrite Pos2Z.inj_pow in L.
  destruct (Z.le_gt_cases (Zpos (Pos.size p)) n) as [|G]; [assumption|exfalso].
  assert (M : 2 ^ Z.succ n <= 2 ^ Zpos (Pos.size p)) by (apply Z.pow_le_mono_r; lia).
  rewrite Z.pow_succ_r in M by lia.
  change (Zpos p~0) with (2 * Zpos p) in L. lia.
Qed.

(** A positive integer below [2^53] is its own nearest Number: rounding
    only normalizes it. *)
Lemma of_Z_small (p : positive) :
  Zpos p < 2 ^ 53 ->
  of_Z (Zpos p) = S754_finite false (normal_mantissa p) (Zpos (digits2_pos p) - 53).
Proof.
  intros H. pose proof (digits2_pos_bound (n:=53) ltac:(lia) H) as D.
  unfold normal_mantissa.
  unfold of_Z, binary_normalize, binary_round, shl_align, fexp, emin, prec, emax.
  set (d := digits2_pos p) in *.
  rewrite Z.add_0_r.
  replace (Z.max (Zpos d - 53) (3 - 1024 - 53)) with (Zpos d - 53) by lia.
  rewrite Z.sub_0_r.
  assert (A : exists m,
             match Zpos d - 53 with
             | Zneg k => (Pos.iter xO p k, Zpos d - 53)
             | _ => (p, 0)
             end = (m, Zpos d - 53)
             /\ m = match (53 - Zpos d)%Z with Zpos k => Pos.iter xO p k | _ => p end
             /\ Zpos (digits2_pos m) = 53).
  { destruct (Z.eq_dec (Zpos d) 53) as [E|NE].
    - exists p. rewrite E. cbn. auto.
    - destruct (Zpos d - 53) as [|k|k] eqn:K; try lia.
      exists (Pos.iter xO p k). replace (53 - Zpos d) with (Zpos k) by lia.
      repeat split. rewrite digits2_pos_shift. fold d. lia. }
  destruct A as [m [-> [Em Dm]]]. rewrite <- Em. clear Em.
  unfold binary_round_aux, shr_fexp, fexp, emin, Zdigits2, shr_record_of_loc.
  rewrite Dm.
  replace (Z.max (53 + (Zpos d - 53) - 53) (3 - 1024 - 53) - (Zpos d - 53)) with 0 by lia.
  cbn [shr shr_m loc_of_shr_record round_nearest_even].
  unfold Zdigits2. rewrite Dm.
  replace (Z.max (53 + (Zpos d - 53) - 53) (3 - 1024 - 53) - (Zpos d - 53)) with 0 by lia.
  cbn [shr shr_m].
  replace (Zpos d - 53 <=? 1024 - 53) with true by (symmetry; apply Z.leb_le; lia).
  reflexivity.
Qed.

(** Read back, such a Number is the integer it was made from. *)
Lemma to_Z_of_Z_small (z : Z) : 0 <= z < 2 ^ 53 -> to_Z (of_Z z) = Some z.
Proof.
  intros [L U]. destruct z as [|p|p]; [reflexivity| |lia].
  rewrite (of_Z_small U). unfold normal_mantissa.
  pose proof (digits2_pos_bound (n:=53) ltac:(lia) U) as D.
  unfold to_Z.
  destruct (Zpos (digits2_pos p) - 53) as [|k|k] eqn:K; try lia.
  - replace (53 - Zpos (digits2_pos p)) with 0 by lia. reflexivity.
  - replace (53 - Zpos (digits2_pos p)) with (Zpos k) by lia.
    rewrite Zpos_shift.
    rewrite Z.mod_mul, Z.div_mul by (apply Z.pow_nonzero; lia).
    reflexivity.
Qed.

Lemma of_Z_small_positive (z : Z) :
  0 < z < 2 ^ 53 -> gt (of_Z z) zero = true /\ truthy_number (of_Z z) = true.
Proof.
  intros [L U]. destruct z as [|p|p]; try lia.
  rewrite (of_Z_small U). split; reflexivity.
Qed.

(** An integer that is an Array length is one as a Number too. *)
Lemma to_array_length_of_Z (z : Z) :
  0 <= z <= max_array_length -> to_array_length (of_Z z) = Some z.
Proof.
  intros [L U]. unfold to_array_length.
  rewrite to_Z_of_Z_small.
  - replace (0 <=? z) with true by (symmetry; apply Z.leb_le; lia).
    replace (z <=? max_array_length) with true by (symmetry; apply Z.leb_le; lia).
    reflexivity.
  - unfold max_array_length in U. change (2 ^ 53) with 9007199254740992. lia.
Qed.

(** The Number nearest to a negative integer is not above zero. *)
Lemma of_Z_negative (p : positive) : gt (of_Z (Zneg p)) zero = false.
Proof.
  unfold of_Z, binary_normalize, binary_round.
  destruct (shl_align p 0 _) as [mz ez].
  unfold binary_round_aux.
  destruct (shr_fexp prec emax (Zpos mz) ez loc_Exact) as [mrs e'].
  destruct (shr_fexp prec emax _ e' loc_Exact) as [mrs' e''].
  destruct (shr_m mrs'); [reflexivity| |reflexivity].
  destruct (e'' <=? emax - prec); reflexivity.
Qed.

(** ** The integer [parseInt] reads *)

Lemma parseInt_nonpositive (s : jsstring) :
  integer_prefix s <= 0 -> gt (or_else (parseInt s) zero) zero = false.
Proof.
  unfold integer_prefix, parseInt.
  destruct (parseInt_math s) as [[negative n]|]; [|reflexivity].
  destruct n as [|p|p]; destruct negative; intros H; try reflexivity; try lia.
  - change (- Zpos p) with (Zneg p).
    pose proof (of_Z_negative p) as G. unfold or_else.
    destruct (truthy_number (of_Z (Zneg p))); [exact G|reflexivity].
  - pose proof (of_Z_negative p) as G. unfold or_else.
    destruct (truthy_number (of_Z (Zneg p))); [exact G|reflexivity].
Qed.

(** [parseInt] gives a Number above zero only when the integer it read
    is. *)
Lemma parseInt_positive_prefix (s : jsstring) :
  gt (parseInt s) zero = true -> 0 < integer_prefix s.
Proof.
  unfold integer_prefix, parseInt.
  destruct (parseInt_math s) as [[negative n]|]; [|discriminate].
  destruct n as [|p|p]; destruct negative; intros H; try lia;
    try discriminate H.
  - change (- Zpos p) with (Zneg p) in H. rewrite of_Z_negative in H. discriminate H.
  - rewrite of_Z_negative in H. discriminate H.
Qed.

Lemma parseInt_small_positive (s : jsstring) :
  0 < integer_prefix s < 2 ^ 53 -> parseInt s = of_Z (integer_prefix s).
Proof.
  unfold integer_prefix, parseInt.
  destruct (parseInt_math s) as [[negative n]|]; [|lia].
  destruct n as [|p|p]; destruct negative; intros H; try reflexivity; lia.
Qed.


(** A few readings, as an engine gives them. *)
Example parseInt_examples :
  parseInt (lit "3") = of_Z 3 /\
  parseInt (lit "2.9") = of_Z 2 /\
  parseInt (lit "3abc") = of_Z 3 /\
  parseInt (lit "  -7 days") = of_Z (-7) /\
  parseInt (lit "0x1F") = of_Z 31 /\
  parseInt (lit "1e3") = of_Z 1 /\
  parseInt (lit "abc") = NaN /\
  parseInt (lit ".5") = NaN /\
  parseInt (lit " ") = NaN /\
  parseInt (lit "-0") = neg_zero /\
  to_Z (parseInt (lit "9007199254740993")) = Some 9007199254740992.
Proof. repeat split; vm_compute; reflexivity. Qed.

Example parseFloat_examples :
  parseFloat (lit "499.99") = S754_finite false 8795917100347556 (-44) /\
  parseFloat (lit "0.1") = S754_finite false 7205759403792794 (-56) /\
  parseFloat (lit "1e3") = of_Z 1000 /\
  parseFloat (lit "-.5e1x") = of_Z (-5) /\
  parseFloat (lit "5.") = of_Z 5 /\
  parseFloat (lit "abc") = NaN /\
  parseFloat (lit "   ") = NaN /\
  parseFloat (lit ".") = NaN /\
  parseFloat (lit "-0") = neg_zero /\
  parseFloat (lit "1e-400") = zero /\
  parseFloat (lit "1e400") = Infinity /\
  parseFloat (lit "Infinity") = Infinity.
Proof. repeat split; vm_compute; reflexivity. Qed.

Example trim_examples :
  trim (lit "  Bali Adventure ") = lit "Bali Adventure" /\
  trim (lit "") = lit "" /\
  trim [9; 10; 160; 8239; 65279]%N = lit "" /\
  blank (lit " x ") = false.
Proof. repeat split; vm_compute; reflexivity. Qed.

Lemma parseInt_days (s : jsstring) :
  0 < integer_prefix s < 2 ^ 53 ->
  or_else (parseInt s) zero = of_Z (integer_prefix s).
Proof.
  intros H. rewrite (parseInt_small_positive s H).
  unfold or_else. destruct (of_Z_small_positive (z:=integer_prefix s) H) as [_ ->].
  reflexivity.
Qed.

(** ** Numbers that are not NaN *)

Lemma shr_1_nonneg (mrs : shr_record) : 0 <= shr_m mrs -> 0 <= shr_m (shr_1 mrs).
Proof.
  destruct mrs as [m r s]. cbn [shr_m]. intros H.
  destruct m as [|p|p]; [|destruct p|]; cbn; lia.
Qed.

Lemma iter_pos_nonneg (p : positive) (mrs : shr_record) :
  0 <= shr_m mrs -> 0 <= shr_m (iter_pos shr_1 p mrs).
Proof.
  revert mrs. induction p as [p IH|p IH|]; intros mrs H; cbn [iter_pos].
  - apply IH, IH, shr_1_nonneg, H.
  - apply IH, IH, H.
  - apply shr_1_nonneg, H.
Qed.

Lemma shr_fexp_nonneg (m e : Z) (l : location) :
  0 <= m -> 0 <= shr_m (fst (shr_fexp prec emax m e l)).
Proof.
  intros H. unfold shr_fexp, shr.
  assert (S : shr_m (shr_record_of_loc m l) = m)
    by (destruct l as [|[]]; reflexivity).
  destruct (fexp prec emax (Zdigits2 m + e) - e) as [|p|p]; cbn [fst].
  - rewrite S. exact H.
  - apply iter_pos_nonneg. rewrite S. exact H.
  - rewrite S. exact H.
Qed.

Lemma round_nearest_even_nonneg (m : Z) (l : location) :
  0 <= m -> 0 <= round_nearest_even m l.
Proof.
  intros H. destruct l as [|[]]; cbn; try lia. destruct (Z.even m); lia.
Qed.

(** Rounding a mantissa that is not negative never gives NaN. *)
Lemma binary_round_aux_not_NaN (sx : bool) (mx ex : Z) (lx : location) :
  0 <= mx -> binary_round_aux prec emax sx mx ex lx <> NaN.
Proof.
  intros H. unfold binary_round_aux.
  pose proof (shr_fexp_nonneg ex lx H) as H1.
  destruct (shr_fexp prec emax mx ex lx) as [mrs' e']. cbn [fst] in H1.
  pose proof (@shr_fexp_nonneg
                (round_nearest_even (shr_m mrs') (loc_of_shr_record mrs')) e' loc_Exact
                (round_nearest_even_nonneg _ H1)) as H2.
  destruct (shr_fexp prec emax _ e' loc_Exact) as [mrs'' e'']. cbn [fst] in H2.
  destruct (shr_m mrs'') as [|m|m].
  - discriminate.
  - destruct (e'' <=? emax - prec); discriminate.
  - lia.
Qed.

Lemma of_Z_not_NaN (z : Z) : of_Z z <> NaN.
Proof.
  unfold of_Z, binary_normalize, binary_round.
  destruct z as [|p|p].
  - discriminate.
  - destruct (shl_align p 0 _) as [mz ez]. apply binary_round_aux_not_NaN. lia.
  - destruct (shl_align p 0 _) as [mz ez]. apply binary_round_aux_not_NaN. lia.
Qed.

Lemma of_ratio_not_NaN (m d : positive) : of_ratio m d <> NaN.
Proof.
  unfold of_ratio, SFdiv, SFdiv_core_binary.
  set (e' := Z.min _ _). set (s := 0 - 0 - e').
  set (m' := match s with Z0 => Zpos m | Zpos _ => Z.shiftl (Zpos m) s | Zneg _ => 0 end).
  assert (M : 0 <= m').
  { subst m'. destruct s; try lia. apply Z.shiftl_nonneg. lia. }
  pose proof (Z.div_pos m' (Zpos d) M ltac:(lia)) as Q.
  unfold Z.div in Q.
  destruct (Z.div_eucl m' (Zpos d)) as [q r]. cbn [fst] in Q.
  apply binary_round_aux_not_NaN. exact Q.
Qed.

Lemma of_decimal_not_NaN (m e : Z) : of_decimal m e <> NaN.
Proof.
  unfold of_decimal. destruct m as [|p|p]; try discriminate.
  destruct e; [apply of_Z_not_NaN|apply of_Z_not_NaN|apply of_ratio_not_NaN].
Qed.

Lemma neg_not_NaN (x : number) : x <> NaN -> neg x <> NaN.
Proof.
  intros H. destruct x; cbn; try discriminate. exact H.
Qed.

(** On a Number (not NaN), [x <= 0] is the negation of [x > 0]. *)
Lemma le_zero_is_not_gt_zero (x : number) :
  x <> NaN -> le x zero = negb (gt x zero).
Proof.
  intros H. destruct x as [s|s| |s m e]; try (exfalso; apply H; reflexivity);
    destruct s; reflexivity.
Qed.

End JSFacts.

(* ===================================================================== *)
(** * Facts about running asynchronous code *)
(* ===================================================================== *)

Module EffFacts.
Import JS Eff.

Section Run.
Variable Q : Type.
Variable R : Q -> Type.
Variable St : Type.
Variable W : Type.
Variable answer : forall q : Q, W -> R q * W.

Lemma run_io_bind (A B : Type) (m : io R A) (k : A -> io R B) (w : W) :
  run answer (io_bind m k) w =
  let '(a, w1, c1) := run answer m w in
  let '(b, w2, c2) := run answer (k a) w1 in
  (b, w2, c1 ++ c2).
Proof.
  revert w. induction m as [a|q c IH]; intros w; cbn [io_bind run].
  - destruct (run answer (k a) w) as [[b w2] c2]. reflexivity.
  - destruct (answer q w) as [r w1]. rewrite IH.
    destruct (run answer (c r) w1) as [[a w2] c1].
    destruct (run answer (k a) w2) as [[b w3] c2]. reflexivity.
Qed.

(** A sequence runs its first part, and its second unless the first
    threw. *)
Lemma run_bind (A B : Type) (m : M R St A) (k : A -> M R St B) (s : St) (w : W) :
  run answer (bind m k s) w =
  let '(o, s1, w1, c1) := run answer (m s) w in
  match o with
  | Returned a =>
      let '(r, w2, c2) := run answer (k a s1) w1 in (r, w2, c1 ++ c2)
  | Thrown e => (Thrown e, s1, w1, c1)
  end.
Proof.
  unfold bind. rewrite run_io_bind.
  destruct (run answer (m s) w) as [[[o s1] w1] c1].
  destruct o as [a|e].
  - reflexivity.
  - cbn [run]. rewrite app_nil_r. reflexivity.
Qed.

(** A [try] runs its handler when, and only when, its body threw. *)
Lemma run_try_catch (A : Type) (body : M R St A) (handler : thrown -> M R St A)
  (s : St) (w : W) :
  run answer (try_catch body handler s) w =
  let '(o, s1, w1, c1) := run answer (body s) w in
  match o with
  | Returned a => (Returned a, s1, w1, c1)
  | Thrown e =>
      let '(r, w2, c2) := run answer (handler e s1) w1 in (r, w2, c1 ++ c2)
  end.
Proof.
  unfold try_catch. rewrite run_io_bind.
  destruct (run answer (body s) w) as [[[o s1] w1] c1].
  destruct o as [a|e].
  - cbn [run]. rewrite app_nil_r. reflexivity.
  - reflexivity.
Qed.

End Run.
End EffFacts.

(* ===================================================================== *)
(** * Facts about the form *)
(* ===================================================================== *)

Module FormFacts.
Import JS Eff Form JSFacts.

(** ** The checks *)

(** [validate] throws the message of the first check of the table that
    fails, and returns when none does. *)
Lemma validate_first_failure (st : state) :
  validate st =
  match first_failure st with
  | Some msg => Thrown (Error msg)
  | None => Returned tt
  end.
Proof.
  unfold validate, first_failure, checks, throw_if.
  cbn [find fst snd option_map obind].
  repeat match goal with
         | |- context [if ?b then _ else _] => destruct b; cbn [obind option_map snd]; try reflexivity
         end.
Qed.

Lemma first_failure_in_checks (st : state) (msg : string) :
  first_failure st = Some msg -> In msg (List.map snd (checks st)).
Proof.
  unfold first_failure. destruct (find fst (checks st)) as [[b m]|] eqn:F; [|discriminate].
  intros E. injection E as <-. apply find_some in F as [I _].
  apply (in_map snd) in I. exact I.
Qed.

(** What a submit leaves when nothing is thrown, and when [err] is
    caught. *)
Lemma submit_unfold (W : Type) (answer : forall c, W -> callback_result c * W)
  (props : Props) (st : state) (w : W) :
  submit answer props st w =
  match validate st with
  | Thrown e =>
      (setLoading false (setError (message_or e "An error occurred while saving") st),
       w, [])
  | Returned _ =>
      let save := onSave (saveData props st) in
      let '(r1, w1) := answer save w in
      match r1 with
      | Thrown e =>
          (setLoading false (setError (message_or e "An error occurred while saving") st),
           w1, [save])
      | Returned _ =>
          let '(r2, w2) := answer onClose w1 in
          match r2 with
          | Thrown e =>
              (setLoading false
                 (setError (message_or e "An error occurred while saving") st),
               w2, [save; onClose])
          | Returned _ =>
              (setLoading false (setError (lit "") st), w2, [save; onClose])
          end
      end
  end.
Proof.
  unfold submit, handleSubmit, invoke.
  cbn -[validate saveData message_or lit].
  destruct (validate st) as [[]|e]; cbn -[validate saveData message_or lit].
  - destruct (answer (onSave (saveData props st)) w) as [r1 w1].
    destruct r1 as [[]|e]; cbn -[validate saveData message_or lit].
    + destruct (answer onClose w1) as [r2 w2].
      destruct r2 as [[]|e]; reflexivity.
    + reflexivity.
  - reflexivity.
Qed.

(** ** The number inputs *)

Example valid_number_examples :
  List.map valid_floating_point_number
    [lit "3"; lit "2.9"; lit "-0.5"; lit ".5"; lit "1e+21"; lit ".1e1"]
  = [true; true; true; true; true; true] /\
  List.map valid_floating_point_number
    [lit ""; lit "abc"; lit "   "; lit "1."; lit "+1"; lit "1e"; lit "1e1.5"; lit " 1"]
  = [false; false; false; false; false; false; false; false].
Proof. split; vm_compute; reflexivity. Qed.

Lemma digit_value_decimal (c : code_unit) (d : Z) :
  digit_value 10 c = Some d -> (48 <= c <= 57)%N.
Proof.
  unfold digit_value.
  destruct ((48 <=? Z.of_N c) && (Z.of_N c <=? 57)) eqn:D.
  - intros _. apply andb_true_iff in D as [A B].
    apply Z.leb_le in A. apply Z.leb_le in B. lia.
  - destruct ((97 <=? Z.of_N c) && (Z.of_N c <=? 122)) eqn:L.
    + apply andb_true_iff in L as [A _]. apply Z.leb_le in A.
      destruct (Z.of_N c - 87 <? 10) eqn:T; [apply Z.ltb_lt in T; lia|discriminate].
    + destruct ((65 <=? Z.of_N c) && (Z.of_N c <=? 90)) eqn:U; [|discriminate].
      apply andb_true_iff in U as [A _]. apply Z.leb_le in A.
      destruct (Z.of_N c - 55 <? 10) eqn:T; [apply Z.ltb_lt in T; lia|discriminate].
Qed.

(** No character a number starts with is white space. *)
Lemma not_whitespace_in_number (c : code_unit) :
  (45 <= c <= 57)%N -> is_whitespace c = false.
Proof.
  intros H. unfold is_whitespace.
  rewrite (proj2 (N.leb_gt c 13)) by lia.
  rewrite (proj2 (N.leb_gt 8192 c)) by lia.
  rewrite !(proj2 (N.eqb_neq c _)) by lia.
  rewrite andb_false_r. reflexivity.
Qed.

(** A match on a leading "." is settled digit by digit. *)
Ltac settle_point c :=
  destruct c as [|?p];
  repeat match goal with
         | |- context [match ?q with xI _ => _ | xO _ => _ | xH => _ end] =>
             destruct q
         | H : context [match ?q with xI _ => _ | xO _ => _ | xH => _ end] |- _ =>
             destruct q
         end.

Lemma valid_unsigned_head (s : jsstring) :
  valid_unsigned s = true -> exists c r, s = c :: r /\ (46 <= c <= 57)%N.
Proof.
  unfold valid_unsigned. destruct s as [|c r]; [discriminate|].
  cbn [span_digits]. destruct (digit_value 10 c) as [d|] eqn:D.
  - intros _. exists c, r. split; [reflexivity|].
    apply digit_value_decimal in D. lia.
  - intros H. exists c, r. split; [reflexivity|].
    settle_point c; try discriminate H. lia.
Qed.

Lemma valid_unsigned_has_digits (s : jsstring) :
  valid_unsigned s = true -> unsigned_decimal s <> NaN.
Proof.
  intros V. destruct (@valid_unsigned_head s V) as [c [r [-> R]]].
  unfold unsigned_decimal.
  replace (strip_prefix (lit "Infinity") (c :: r)) with (@None jsstring)
    by (change (lit "Infinity") with (73%N :: lit "nfinity"); cbn [strip_prefix];
        rewrite (proj2 (N.eqb_neq 73 c)) by lia; reflexivity).
  unfold valid_unsigned in V.
  destruct (span_digits 10 (c :: r)) as [int_digits r1].
  destruct r1 as [|c1 r1].
  - destruct int_digits as [|d ds]; [discriminate V|].
    cbn. apply of_decimal_not_NaN.
  - settle_point c1;
      try (destruct int_digits as [|d ds]; [discriminate V|];
           cbn; apply of_decimal_not_NaN).
    destruct (span_digits 10 r1) as [frac_digits r2].
    destruct frac_digits as [|d ds]; [discriminate V|].
    destruct (int_digits ++ d :: ds) eqn:E; [|apply of_decimal_not_NaN].
    apply app_eq_nil in E as [_ E]. discriminate E.
Qed.

(** What [parseInt] and [parseFloat] strip from a valid floating-point
    number is its minus sign. *)
Lemma valid_number_sign (s : jsstring) :
  valid_floating_point_number s = true ->
  exists negative, strip_sign (trimStart s) = (negative, strip_minus s).
Proof.
  unfold valid_floating_point_number. destruct s as [|c r]; [discriminate|].
  unfold strip_minus. destruct (c =? minus_sign)%N eqn:M.
  - intros _. exists true. apply N.eqb_eq in M. subst c. reflexivity.
  - intros V. destruct (@valid_unsigned_head _ V) as [c' [r' [E R]]].
    injection E as <- <-. exists false.
    cbn [trimStart]. rewrite (@not_whitespace_in_number c) by lia.
    unfold strip_sign. rewrite M.
    rewrite (proj2 (N.eqb_neq c plus_sign)) by (unfold plus_sign; lia).
    reflexivity.
Qed.

(** The value of a number input is read by [parseFloat] as a Number. *)
Lemma parseFloat_number_input (s : jsstring) :
  valid_floating_point_number s = true -> parseFloat s <> NaN.
Proof.
  intros V. destruct (@valid_number_sign s V) as [negative E].
  unfold parseFloat. rewrite E.
  pose proof (@valid_unsigned_has_digits _ V) as U.
  destruct negative; [apply neg_not_NaN|]; exact U.
Qed.

Lemma valid_unsigned_no_hex (s : jsstring) :
  valid_unsigned s = true -> strip_hex_prefix s = (10, s).
Proof.
  intros V. unfold valid_unsigned in V. unfold strip_hex_prefix.
  destruct s as [|c [|c' r]]; try reflexivity.
  - settle_point c; reflexivity.
  - settle_point c; try reflexivity.
    settle_point c'; try reflexivity; cbn in V; discriminate V.
Qed.

(** When it has an integer part, it is read by [parseInt] as a Number
    too. *)
Lemma parseInt_number_input (s : jsstring) :
  valid_floating_point_number s = true -> has_integer_part s = true ->
  parseInt s <> NaN.
Proof.
  intros V I. destruct (@valid_number_sign s V) as [negative E].
  unfold parseInt, parseInt_math. rewrite E.
  rewrite (@valid_unsigned_no_hex _ V).
  unfold has_integer_part in I.
  destruct (fst (span_digits 10 (strip_minus s))) as [|d ds]; [discriminate I|].
  destruct (digits_value 10 (d :: ds)) as [|n|n].
  - destruct negative; discriminate.
  - apply of_Z_not_NaN.
  - apply of_Z_not_NaN.
Qed.

(** A number is not blank. *)
Lemma blank_number_input (s : jsstring) :
  number_input_value s -> is_blank s = true -> s = [].
Proof.
  intros [E|V] B; [exact E|exfalso].
  destruct s as [|c r]; [discriminate V|].
  cbn in B. apply andb_true_iff in B as [B _].
  unfold valid_floating_point_number, strip_minus in V.
  destruct (c =? minus_sign)%N eqn:M.
  - apply N.eqb_eq in M. subst c. discriminate B.
  - destruct (@valid_unsigned_head _ V) as [c' [r' [E R]]].
    injection E as <- <-.
    rewrite (@not_whitespace_in_number c) in B by lia. discriminate B.
Qed.

(** ** The checks of the source and those of the specification *)

Lemma blank_is_blank (s : jsstring) : blank s = is_blank s.
Proof.
  pose proof (blank_iff s) as I. unfold is_blank.
  destruct (blank s), (forallb is_whitespace s); try reflexivity.
  - symmetry. apply I. reflexivity.
  - apply I. reflexivity.
Qed.

Lemma existsb_blank (l : list jsstring) : existsb blank l = existsb is_blank l.
Proof.
  induction l as [|d r IH]; cbn; [reflexivity|]. rewrite blank_is_blank, IH. reflexivity.
Qed.

Lemma not_truthy_is_empty (s : jsstring) : negb (truthy_string s) = is_empty s.
Proof. destruct s; reflexivity. Qed.

Lemma length_zero_is_empty (A : Type) (l : list A) :
  (List.length l =? 0)%nat = is_empty l.
Proof. destruct l; reflexivity. Qed.

(** On a Number, or on no text at all, "absent, or [<= 0]" is "not
    present and [> 0]". *)
Lemma number_check (s : jsstring) (x : number) :
  s = [] \/ x <> NaN ->
  negb (truthy_string s) || le x zero = negb (negb (is_empty s) && gt x zero).
Proof.
  intros [->|N]; [reflexivity|].
  rewrite (@le_zero_is_not_gt_zero _ N). destruct s; cbn; [reflexivity|].
  destruct (gt x zero); reflexivity.
Qed.

(** On what the number inputs hold, the checks of the source are those
    of the specification. *)
Lemma checks_as_claimed (st : state) :
  whole_number_input_value (duration st) ->
  number_input_value (price st) ->
  checks st = claimed_checks st.
Proof.
  intros D P. unfold checks, claimed_checks.
  rewrite !blank_is_blank, existsb_blank, not_truthy_is_empty, length_zero_is_empty.
  rewrite (@number_check (duration st) (parseInt (duration st))).
  - rewrite (@number_check (price st) (parseFloat (price st))); [reflexivity|].
    destruct P as [E|V]; [left; exact E|right; apply parseFloat_number_input; exact V].
  - destruct D as [E|[V I]];
      [left; exact E|right; apply parseInt_number_input; assumption].
Qed.

Lemma find_first_failing (passing later : list (bool * string)) (msg : string) :
  Forall (fun c => fst c = false) passing ->
  find fst (passing ++ (true, msg) :: later) = Some (true, msg).
Proof.
  induction 1 as [|[b m] l B _ IH]; cbn [app find fst]; [reflexivity|].
  cbn in B. rewrite B. exact IH.
Qed.

Lemma find_none_failing (l : list (bool * string)) :
  Forall (fun c => fst c = false) l -> find fst l = None.
Proof.
  induction 1 as [|[b m] l B _ IH]; cbn [find fst]; [reflexivity|].
  cbn in B. rewrite B. exact IH.
Qed.

(** ** Submitting *)

(** On what the number inputs hold, the duration written with digits
    before any point, a submit runs the checks in the order of the
    specification: destination, title, description, duration, price,
    image URL, one itinerary entry, no blank entry. Whenever the checks
    before one pass and that one fails, its message is what is thrown
    and shown, whatever the checks after it would say, and no callback
    is invoked; when none fails the validation passes. *)
Lemma checks_run_in_the_claimed_order
  (W : Type) (answer : forall c, W -> callback_result c * W)
  (props : Props) (st : state) (w : W) :
  whole_number_input_value (duration st) ->
  number_input_value (price st) ->
  List.map snd (claimed_checks st)
  = [ "Please select a destination"; "Title is required"; "Description is required";
      "Valid duration is required"; "Valid price is required";
      "Main image URL is required"; "At least one itinerary day is required";
      "Please fill in all itinerary descriptions" ]%string /\
  (forall passing msg later,
     claimed_checks st = passing ++ (true, msg) :: later ->
     Forall (fun c => fst c = false) passing ->
     validate st = Thrown (Error msg) /\
     submit answer props st w = (setLoading false (setError (lit msg) st), w, []) /\
     error (fst (fst (submit answer props st w))) = lit msg) /\
  (Forall (fun c => fst c = false) (claimed_checks st) -> validate st = Returned tt).
Proof.
  intros D P. split; [reflexivity|].
  pose proof (@checks_as_claimed st D P) as C.
  split.
  - intros passing msg later E F.
    assert (V : validate st = Thrown (Error msg)).
    { rewrite validate_first_failure. unfold first_failure.
      rewrite C, E, (@find_first_failing _ later msg F). reflexivity. }
    split; [exact V|].
    rewrite submit_unfold, V. split; reflexivity.
  - intros F. rewrite validate_first_failure. unfold first_failure.
    rewrite C, (@find_none_failing _ F). reflexivity.
Qed.

(** A price of zero, with no image URL and a blank day besides: the
    message is the price's. *)
Lemma free_submit_asks_for_a_price :
  validate free_form = Thrown (Error "Valid price is required") /\
  submit accepting create_mode free_form tt
  = (setLoading false (setError (lit "Valid price is required") free_form), tt, []) /\
  error (fst (fst (submit accepting create_mode free_form tt)))
  = lit "Valid price is required".
Proof.
  refine (proj1 (proj2 (@checks_run_in_the_claimed_order unit accepting create_mode
                          free_form tt _ _))
            (firstn 4 (claimed_checks free_form)) "Valid price is required"%string
            (skipn 5 (claimed_checks free_form)) _ _).
  - right. split; reflexivity.
  - right. reflexivity.
  - reflexivity.
  - repeat constructor.
Defined.

Lemma blank_field_fails_a_check (st : state) :
  number_input_value (duration st) ->
  number_input_value (price st) ->
  required_field_blank st -> exists msg, first_failure st = Some msg.
Proof.
  intros D P H. unfold first_failure.
  destruct (find fst (checks st)) as [[b m]|] eqn:F; [exists m; reflexivity|exfalso].
  pose proof (find_none _ _ F) as N.
  assert (C : forall b m, In (b, m) (checks st) -> b = false)
    by (intros b m I; exact (N _ I)).
  unfold checks in C.
  destruct H as [H|[H|[H|[H|[H|[H|[H|[d [I H]]]]]]]]].
  - specialize (C _ _ (or_introl eq_refl)). rewrite H in C. discriminate C.
  - specialize (C _ _ (or_intror (or_introl eq_refl))).
    rewrite blank_is_blank in C. congruence.
  - specialize (C _ _ (or_intror (or_intror (or_introl eq_refl)))).
    rewrite blank_is_blank in C. congruence.
  - specialize (C _ _ (or_intror (or_intror (or_intror (or_introl eq_refl))))).
    rewrite (@blank_number_input _ D H) in C. discriminate C.
  - specialize (C _ _ (or_intror (or_intror (or_intror (or_intror (or_introl eq_refl)))))).
    rewrite (@blank_number_input _ P H) in C. discriminate C.
  - specialize (C _ _ (or_intror (or_intror (or_intror (or_intror (or_intror
                        (or_introl eq_refl))))))).
    rewrite blank_is_blank in C. congruence.
  - specialize (C _ _ (or_intror (or_intror (or_intror (or_intror (or_intror
                        (or_intror (or_introl eq_refl)))))))).
    rewrite H in C. discriminate C.
  - specialize (C _ _ (or_intror (or_intror (or_intror (or_intror (or_intror
                        (or_intror (or_intror (or_introl eq_refl))))))))).
    assert (E : existsb blank (itineraryDescriptions st) = true).
    { apply existsb_exists. exists d. split; [exact I|].
      rewrite blank_is_blank. exact H. }
    congruence.
Qed.

Lemma failing_validation_fails_a_check (st : state) :
  fails_validation st -> exists msg, first_failure st = Some msg.
Proof.
  intros [e E]. rewrite validate_first_failure in E.
  destruct (first_failure st) as [msg|]; [exists msg; reflexivity|discriminate E].
Qed.

(** C5: on what the number inputs hold, a submit with a required field
    blank (no destination, a text, a duration or a price of white space
    only, no itinerary entry or a blank one), or that fails a check
    otherwise, sets the message of the check that rejects it (the first
    one to fail), returns the loading flag to false, and invokes no
    callback: neither [onSave], so no remote call is made, nor
    [onClose], so the form stays open. *)
Theorem blank_field_blocks_the_submit
  (W : Type) (answer : forall c, W -> callback_result c * W)
  (props : Props) (st : state) (w : W) :
  number_input_value (duration st) ->
  number_input_value (price st) ->
  required_field_blank st \/ fails_validation st ->
  exists msg,
    first_failure st = Some msg /\
    In msg (List.map snd (checks st)) /\
    validate st = Thrown (Error msg) /\
    submit answer props st w = (setLoading false (setError (lit msg) st), w, []) /\
    error (fst (fst (submit answer props st w))) = lit msg /\
    snd (submit answer props st w) = [].
Proof.
  intros D P H.
  assert (F : exists msg, first_failure st = Some msg).
  { destruct H as [H|H].
    - apply blank_field_fails_a_check; assumption.
    - apply failing_validation_fails_a_check. exact H. }
  destruct F as [msg F]. exists msg.
  split; [exact F|]. split; [apply first_failure_in_checks; exact F|].
  assert (V : validate st = Thrown (Error msg))
    by (rewrite validate_first_failure, F; reflexivity).
  split; [exact V|].
  rewrite submit_unfold, V. repeat split.
Qed.

(** A submit of the form whose price input is blank: it asks for a
    price and calls nothing. *)
Lemma blank_field_witness :
  first_failure unpriced_form = Some "Valid price is required"%string /\
  submit accepting create_mode unpriced_form tt
  = (setLoading false (setError (lit "Valid price is required") unpriced_form), tt, []).
Proof.
  destruct (@blank_field_blocks_the_submit unit accepting create_mode unpriced_form tt)
    as [msg [F [_ [_ [S _]]]]].
  - right. reflexivity.
  - left. reflexivity.
  - left. right. right. right. right. left. reflexivity.
  - assert (E : msg = "Valid price is required"%string).
    { assert (G : first_failure unpriced_form = Some "Valid price is required"%string)
        by reflexivity.
      rewrite G in F. injection F as <-. reflexivity. }
    subst msg. split; [exact F|exact S].
Defined.

(** C3 (where the code departs from it): ".1e1" typed for the duration.
    The number input holds it, a valid floating-point number equal to 1,
    within the input's minimum and step. [parseInt] reads no Number from
    it, so the duration is not above zero and the duration check is the
    first of the specification's to fail. The source lets it through
    ([NaN <= 0] is false, where the duration effect turns the same NaN
    into 0 and empties the itinerary list): the message thrown and
    shown is the itinerary's, not the duration's. *)
Theorem pointed_duration_is_not_rejected :
  valid_floating_point_number (duration pointed_form) = true /\
  parseFloat (duration pointed_form) = of_Z 1 /\
  parseInt (duration pointed_form) = NaN /\
  gt (parseInt (duration pointed_form)) zero = false /\
  duration_effect (duration pointed_form) [lit ""]
  = Returned (itineraryDescriptions pointed_form) /\
  find fst (claimed_checks pointed_form)
  = Some (true, "Valid duration is required"%string) /\
  negb (truthy_string (duration pointed_form))
  || le (parseInt (duration pointed_form)) zero = false /\
  validate pointed_form = Thrown (Error "At least one itinerary day is required") /\
  submit accepting create_mode pointed_form tt
  = (setLoading false
       (setError (lit "At least one itinerary day is required") pointed_form),
     tt, []).
Proof. repeat split; vm_compute; reflexivity. Qed.

(** C9: for every form state, a submit that fails, because a check throws
    or because [onSave] does, leaves every field cell as it was (title,
    description, duration, price, image URL, destination and itinerary
    list): it sets the error message and returns the loading flag to
    false, and that is all. *)
Theorem failed_submit_keeps_fields
  (W : Type) (answer : forall c, W -> callback_result c * W)
  (props : Props) (st : state) (w : W) (e : thrown) :
  validate st = Thrown e \/
  (validate st = Returned tt /\
   fst (answer (onSave (saveData props st)) w) = Thrown e) ->
  forall st' w' calls,
    submit answer props st w = (st', w', calls) ->
    same_fields st' st /\
    error st' = message_or e "An error occurred while saving" /\
    loading st' = false /\
    st' = setLoading false
            (setError (message_or e "An error occurred while saving") st) /\
    ~ In onClose calls.
Proof.
  intros H st' w' calls E. rewrite submit_unfold in E.
  assert (S : st' = setLoading false
                      (setError (message_or e "An error occurred while saving") st)
              /\ ~ In onClose calls).
  { destruct H as [V|[V A]].
    - rewrite V in E. injection E as <- _ <-. split; [reflexivity|intros []].
    - rewrite V in E. cbv zeta in E.
      destruct (answer (onSave (saveData props st)) w) as [r1 w1].
      cbn [fst] in A. subst r1. injection E as <- _ <-.
      split; [reflexivity|]. intros [I|[]]. discriminate I. }
  destruct S as [-> N].
  repeat split; assumption.
Qed.

(** A submit whose [onSave] rejects. *)
Lemma failed_submit_witness :
  (validate fractional_duration_form = Thrown (Error "out of reach") \/
   (validate fractional_duration_form = Returned tt /\
    fst (rejecting (Error "out of reach")
           (onSave (saveData create_mode fractional_duration_form)) tt)
    = Thrown (Error "out of reach"))) /\
  forall st' w' calls,
    submit (rejecting (Error "out of reach")) create_mode fractional_duration_form tt
    = (st', w', calls) ->
    same_fields st' fractional_duration_form /\
    error st' = message_or (Error "out of reach") "An error occurred while saving" /\
    loading st' = false /\
    st' = setLoading false
            (setError (message_or (Error "out of reach") "An error occurred while saving")
               fractional_duration_form) /\
    ~ In onClose calls.
Proof.
  assert (F : validate fractional_duration_form = Thrown (Error "out of reach") \/
              (validate fractional_duration_form = Returned tt /\
               fst (rejecting (Error "out of reach")
                      (onSave (saveData create_mode fractional_duration_form)) tt)
               = Thrown (Error "out of reach"))).
  { right. split; vm_compute; reflexivity. }
  split.
  - exact F.
  - exact (@failed_submit_keeps_fields unit (rejecting (Error "out of reach"))
             create_mode fractional_duration_form tt (Error "out of reach") F).
Defined.



(** ** The duration effect *)

Lemma push_empty_repeat (k : nat) (l : list jsstring) :
  push_empty k l = l ++ repeat (lit "") k.
Proof.
  revert l. induction k as [|k IH]; intros l; cbn [push_empty repeat].
  - rewrite app_nil_r. reflexivity.
  - rewrite IH, <- app_assoc. reflexivity.
Qed.

(** [resize] at an Array length [n]: the list padded with empty strings
    up to [n] entries, cut down to its first [n]. *)
Lemma resize_closed_form (days : number) (n : Z) (prev : list jsstring) :
  to_array_length days = Some n ->
  resize days prev =
  Returned (firstn (Z.to_nat n)
              (prev ++ repeat (lit "") (Z.to_nat n - List.length prev))).
Proof.
  intros E. unfold resize. rewrite E, push_empty_repeat.
  destruct (Nat.ltb_spec (Z.to_nat n)
              (List.length (prev ++ repeat (lit "") (Z.to_nat n - List.length prev))))
    as [L|G]; [reflexivity|].
  rewrite firstn_all2 by exact G. reflexivity.
Qed.

Lemma resized_entries (n : nat) (prev : list jsstring) :
  let l := firstn n (prev ++ repeat (lit "") (n - List.length prev)) in
  List.length l = n /\
  (forall i, (i < List.length prev)%nat -> (i < List.length l)%nat ->
             nth_error l i = nth_error prev i) /\
  (forall i, (List.length prev <= i)%nat -> (i < List.length l)%nat ->
             nth_error l i = Some (lit "")).
Proof.
  intros l.
  assert (Len : List.length l = n).
  { unfold l. rewrite length_firstn, length_app, repeat_length. lia. }
  split; [exact Len|]. rewrite Len. unfold l.
  split; intros i H1 H2; rewrite nth_error_firstn;
    destruct (Nat.ltb_spec i n) as [_|]; try lia.
  - apply nth_error_app1. exact H1.
  - rewrite nth_error_app2 by exact H1. apply nth_error_repeat. lia.
Qed.

(** C4 (as amended): for every prior itinerary list and every duration
    whose integer prefix is at most [2^32 - 1], the largest length an
    Array can have, the duration effect leaves a list whose length is
    max(parsed duration, 0): the prior list padded with empty strings and
    cut to that length, so the entries below both lengths are the prior
    ones, index by index, and those past the old length are empty strings.
    A non-positive or unparsable duration leaves the empty list. *)
Theorem duration_effect_resizes (duration : jsstring) (prev : list jsstring) :
  integer_prefix duration <= max_array_length ->
  exists l,
    duration_effect duration prev = Returned l /\
    Z.of_nat (List.length l) = Z.max (integer_prefix duration) 0 /\
    l = firstn (List.length l)
          (prev ++ repeat (lit "") (List.length l - List.length prev)) /\
    (forall i, (i < List.length prev)%nat -> (i < List.length l)%nat ->
               nth_error l i = nth_error prev i) /\
    (forall i, (List.length prev <= i)%nat -> (i < List.length l)%nat ->
               nth_error l i = Some (lit "")).
Proof.
  intros U. unfold duration_effect.
  destruct (Z.le_gt_cases (integer_prefix duration) 0) as [NP|P].
  - rewrite (parseInt_nonpositive duration NP).
    exists []. cbn [List.length firstn]. repeat split; intros; cbn in *; lia.
  - assert (B : 0 < integer_prefix duration < 2 ^ 53).
    { unfold max_array_length in U. change (2 ^ 53) with 9007199254740992. lia. }
    rewrite (parseInt_days duration B).
    destruct (of_Z_small_positive B) as [-> _].
    assert (A : to_array_length (of_Z (integer_prefix duration))
                = Some (integer_prefix duration))
      by (apply to_array_length_of_Z; lia).
    rewrite (@resize_closed_form _ _ prev A).
    set (n := Z.to_nat (integer_prefix duration)).
    destruct (resized_entries n prev) as [Len [Keep Pad]].
    eexists. split; [reflexivity|].
    rewrite Len in Keep, Pad. rewrite Len.
    repeat split; try assumption.
    unfold n. lia.
Qed.

(** The effect at a duration of four entries, from a list of two. *)
Lemma duration_effect_resizes_witness :
  integer_prefix (lit "4") <= max_array_length /\
  exists l,
    duration_effect (lit "4") [lit "Day1"; lit "Day2"] = Returned l /\
    Z.of_nat (List.length l) = Z.max (integer_prefix (lit "4")) 0 /\
    l = firstn (List.length l)
          ([lit "Day1"; lit "Day2"] ++
           repeat (lit "") (List.length l - List.length [lit "Day1"; lit "Day2"])) /\
    (forall i, (i < List.length [lit "Day1"; lit "Day2"])%nat ->
               (i < List.length l)%nat ->
               nth_error l i = nth_error [lit "Day1"; lit "Day2"] i) /\
    (forall i, (List.length [lit "Day1"; lit "Day2"] <= i)%nat ->
               (i < List.length l)%nat ->
               nth_error l i = Some (lit "")).
Proof.
  split.
  - vm_compute. discriminate.
  - apply (@duration_effect_resizes (lit "4") [lit "Day1"; lit "Day2"]).
    vm_compute. discriminate.
Defined.

(** C4 (as stated) fails: at the duration "4294967296", one past the
    largest Array length, the effect throws and leaves no list of
    max(parsed duration, 0) entries. *)
Lemma duration_effect_past_array_limit :
  ~ exists l,
      duration_effect (lit "4294967296") [] = Returned l /\
      Z.of_nat (List.length l) = Z.max (integer_prefix (lit "4294967296")) 0.
Proof.
  intros [l [E _]].
  assert (T : duration_effect (lit "4294967296") [] = Thrown invalid_array_length)
    by (vm_compute; reflexivity).
  rewrite T in E. discriminate E.
Qed.

(** ** [handleItineraryChange] *)

Lemma set_element_within (prev : list jsstring) (index : nat) (value : jsstring) :
  (index < List.length prev)%nat ->
  let l := set_element prev index value in
  List.length l = List.length prev /\
  nth_error l index = Some (Some value) /\
  (forall j, j <> index -> nth_error l j = option_map Some (nth_error prev j)).
Proof.
  revert index. induction prev as [|x r IH]; intros index H; cbn in H; [lia|].
  destruct index as [|i]; cbn [set_element].
  - cbn. rewrite length_map. repeat split.
    intros [|j] N; [congruence|]. cbn. apply nth_error_map.
  - destruct (IH i ltac:(lia)) as [L [V O]].
    cbn. repeat split.
    + rewrite L. reflexivity.
    + exact V.
    + intros [|j] N; [reflexivity|]. cbn. apply O. congruence.
Qed.

(** C10: for every itinerary list and every index within its bounds,
    [handleItineraryChange] leaves a list of the same length, without
    holes, whose entry at the index is the new value and whose every other
    entry is the one the list had. *)
Theorem itinerary_change_replaces_one_entry
  (prev : list jsstring) (index : nat) (value : jsstring) :
  (index < List.length prev)%nat ->
  let l := handleItineraryChange index value prev in
  List.length l = List.length prev /\
  nth_error l index = Some (Some value) /\
  (forall j, j <> index -> nth_error l j = option_map Some (nth_error prev j)).
Proof.
  intros H. unfold handleItineraryChange, array_set.
  rewrite (proj2 (Nat.ltb_lt _ _) H). cbn [orb].
  apply set_element_within. exact H.
Qed.

(** Day 2 of three rewritten. *)
Lemma itinerary_change_witness :
  (1 < List.length [lit "a"; lit "b"; lit "c"])%nat /\
  let l := handleItineraryChange 1 (lit "z") [lit "a"; lit "b"; lit "c"] in
  List.length l = List.length [lit "a"; lit "b"; lit "c"] /\
  nth_error l 1 = Some (Some (lit "z")) /\
  (forall j, j <> 1%nat ->
             nth_error l j = option_map Some (nth_error [lit "a"; lit "b"; lit "c"] j)).
Proof.
  split.
  - cbn. lia.
  - apply (@itinerary_change_replaces_one_entry [lit "a"; lit "b"; lit "c"] 1 (lit "z")).
    cbn. lia.
Defined.

End FormFacts.

(* ===================================================================== *)
(** * Facts about the hook *)
(* ===================================================================== *)

Module HookFacts.
Import JS Eff Hook JSFacts EffFacts.

Lemma string_eqb_eq (a b : jsstring) : string_eqb a b = true <-> a = b.
Proof.
  unfold string_eqb. destruct (list_eq_dec N.eq_dec a b); split; congruence.
Qed.

Lemma truthy_id_spec (pkg : PackageInput.t) (id : jsstring) :
  truthy_id pkg = Some id <-> PackageInput.id pkg = Some id /\ id <> [].
Proof.
  unfold truthy_id. destruct (PackageInput.id pkg) as [[|c r]|]; cbn; split.
  - discriminate.
  - intros [E N]. injection E as <-. congruence.
  - intros E. split; [exact E|]. injection E as <-. discriminate.
  - intros [E _]. exact E.
  - discriminate.
  - intros [E _]. discriminate E.
Qed.

Section Backend.
Variable W : Type.
Variable answer : forall q : request, W -> reply q * W.

(** ** One query *)

Lemma run_query (q : request) (st : state) (w : W) :
  run answer (query q st) w =
  let '(r, w1) := answer q w in
  (match r with Success d => Returned d | Failure e => Thrown e end, st, w1, [q]).
Proof.
  unfold query. cbn. destruct (answer q w) as [[d|e] w1]; reflexivity.
Qed.

(** ** The package writes *)

Lemma run_addPackage (pkg : PackageInput.t) (st : state) (w : W) :
  run answer (addPackage pkg st) w =
  let '(r, w1) := answer (insert_package pkg) w in
  match r with
  | Success row =>
      (Returned row, setPackages (fun prev => row :: prev) st, w1, [insert_package pkg])
  | Failure e =>
      (Thrown e, log "Error adding package:" e st, w1, [insert_package pkg])
  end.
Proof.
  unfold addPackage. rewrite run_try_catch, run_bind, run_query.
  destruct (answer (insert_package pkg) w) as [[row|e] w1]; reflexivity.
Qed.

Lemma run_updatePackage (id : jsstring) (updates : PackageInput.t) (st : state) (w : W) :
  run answer (updatePackage id updates st) w =
  let '(r, w1) := answer (update_package id updates) w in
  match r with
  | Success row =>
      (Returned row,
       setPackages (List.map (fun p => if string_eqb (Package.id p) id then row else p)) st,
       w1, [update_package id updates])
  | Failure e =>
      (Thrown e, log "Error updating package:" e st, w1, [update_package id updates])
  end.
Proof.
  unfold updatePackage. rewrite run_try_catch, run_bind, run_query.
  destruct (answer (update_package id updates) w) as [[row|e] w1]; reflexivity.
Qed.

(** ** The itinerary upsert *)

(** A row exists: the description list is written, and nothing else. *)
Lemma run_upsert_found (packageId : jsstring) (description : list jsstring)
  (st : state) (w w1 : W) (row_id : jsstring) :
  answer (select_itinerary_id packageId) w = (Success (Some row_id), w1) ->
  run answer (addOrUpdateItinerary packageId description st) w =
  let '(r, w2) := answer (itinerary_update packageId description) w1 in
  (match r with
   | Success _ => (Returned tt, st)
   | Failure e => (Thrown e, log "Error saving itinerary:" e st)
   end,
   w2, [select_itinerary_id packageId; itinerary_update packageId description]).
Proof.
  intros E. unfold addOrUpdateItinerary, query_data, query, itinerary_update.
  cbn. rewrite E. cbn.
  destruct (answer (update_itinerary packageId _) w1) as [[[]|e] w2]; reflexivity.
Qed.

(** No row exists: one is inserted, with the length of the list for its
    day count. *)
Lemma run_upsert_missing (packageId : jsstring) (description : list jsstring)
  (st : state) (w w1 : W) :
  answer (select_itinerary_id packageId) w = (Success None, w1) ->
  run answer (addOrUpdateItinerary packageId description st) w =
  let '(r, w2) := answer (itinerary_insert packageId description) w1 in
  (match r with
   | Success _ => (Returned tt, st)
   | Failure e => (Thrown e, log "Error saving itinerary:" e st)
   end,
   w2, [select_itinerary_id packageId; itinerary_insert packageId description]).
Proof.
  intros E. unfold addOrUpdateItinerary, query_data, query, itinerary_insert.
  cbn. rewrite E. cbn.
  destruct (answer (insert_itinerary _) w1) as [[[]|e] w2]; reflexivity.
Qed.

(** The lookup fails: its error is dropped, and a row is inserted as if
    none existed. *)
Lemma run_upsert_lookup_failed (packageId : jsstring) (description : list jsstring)
  (st : state) (w w1 : W) (lost : thrown) :
  answer (select_itinerary_id packageId) w = (Failure lost, w1) ->
  run answer (addOrUpdateItinerary packageId description st) w =
  let '(r, w2) := answer (itinerary_insert packageId description) w1 in
  (match r with
   | Success _ => (Returned tt, st)
   | Failure e => (Thrown e, log "Error saving itinerary:" e st)
   end,
   w2, [select_itinerary_id packageId; itinerary_insert packageId description]).
Proof.
  intros E. unfold addOrUpdateItinerary, query_data, query, itinerary_insert.
  cbn. rewrite E. cbn.
  destruct (answer (insert_itinerary _) w1) as [[[]|e] w2]; reflexivity.
Qed.

(** The upsert starts by looking the row up. *)
Lemma upsert_looks_up_first (packageId : jsstring) (description : list jsstring)
  (st : state) (w : W) :
  exists rest,
    snd (run answer (addOrUpdateItinerary packageId description st) w)
    = select_itinerary_id packageId :: rest.
Proof.
  destruct (answer (select_itinerary_id packageId) w) as [[[row_id|]|lost] w1] eqn:E.
  - rewrite (run_upsert_found description st E).
    destruct (answer (itinerary_update packageId description) w1). eexists. reflexivity.
  - rewrite (run_upsert_missing description st E).
    destruct (answer (itinerary_insert packageId description) w1). eexists. reflexivity.
  - rewrite (run_upsert_lookup_failed description st E).
    destruct (answer (itinerary_insert packageId description) w1). eexists. reflexivity.
Qed.

(** ** The composite save *)

(** The composite save once its package write has answered [row]: the
    itinerary upsert runs from there, and its outcome decides. *)
Lemma save_continues_with_itinerary (row : Package.t)
  (itineraryDescriptions : list jsstring) (st1 : state) (w1 : W) :
  run answer
    (bind (addOrUpdateItinerary (Package.id row) itineraryDescriptions)
       (fun _ => ret row) st1) w1 =
  let '(o, st2, w2, calls) :=
    run answer (addOrUpdateItinerary (Package.id row) itineraryDescriptions st1) w1 in
  (match o with
   | Returned _ => Returned row
   | Thrown e => Thrown e
   end, st2, w2, calls).
Proof.
  rewrite run_bind.
  destruct (run answer (addOrUpdateItinerary _ _ st1) w1) as [[[[[]|e] st2] w2] calls].
  - cbn. rewrite app_nil_r. reflexivity.
  - reflexivity.
Qed.

(** C1: the composite save rejects an empty description list, and one
    with an entry that is blank once trimmed, before any call. Otherwise
    the package write comes first: an update when the package carries an
    identifier, an insert when it does not. When that write fails nothing
    follows it (no query on the itinerary is made) and its error is what
    the caller gets. When it succeeds the itinerary upsert follows, for
    the identifier of the row written; the caller gets the row, or the
    error the upsert threw. *)
Theorem composite_save_order (pkg : PackageInput.t)
  (itineraryDescriptions : list jsstring) (st : state) (w : W) :
  let save := run answer (addOrUpdatePackageWithItinerary pkg itineraryDescriptions st) w in
  let caught e := log "Error saving package with itinerary:" e in
  (itineraryDescriptions = [] ->
   save = (Thrown (Error "Itinerary descriptions are required"),
           caught (Error "Itinerary descriptions are required") st, w, []))
  /\
  (itineraryDescriptions <> [] -> existsb blank itineraryDescriptions = true ->
   save = (Thrown (Error "All itinerary descriptions must be filled out"),
           caught (Error "All itinerary descriptions must be filled out") st, w, []))
  /\
  (itineraryDescriptions <> [] -> existsb blank itineraryDescriptions = false ->
   (forall id, truthy_id pkg = Some id ->
      (forall e w1,
         answer (update_package id pkg) w = (Failure e, w1) ->
         save = (Thrown e, caught e (log "Error updating package:" e st), w1,
                 [update_package id pkg]))
      /\
      (forall row w1 o st2 w2 calls,
         answer (update_package id pkg) w = (Success row, w1) ->
         run answer
           (addOrUpdateItinerary (Package.id row) itineraryDescriptions
              (setPackages
                 (List.map (fun p => if string_eqb (Package.id p) id then row else p)) st))
           w1 = (o, st2, w2, calls) ->
         save = (match o with
                 | Returned _ => (Returned row, st2)
                 | Thrown e => (Thrown e, caught e st2)
                 end, w2, update_package id pkg :: calls)))
   /\
   (truthy_id pkg = None ->
      (forall e w1,
         answer (insert_package pkg) w = (Failure e, w1) ->
         save = (Thrown e, caught e (log "Error adding package:" e st), w1,
                 [insert_package pkg]))
      /\
      (forall row w1 o st2 w2 calls,
         answer (insert_package pkg) w = (Success row, w1) ->
         run answer
           (addOrUpdateItinerary (Package.id row) itineraryDescriptions
              (setPackages (fun prev => row :: prev) st))
           w1 = (o, st2, w2, calls) ->
         save = (match o with
                 | Returned _ => (Returned row, st2)
                 | Thrown e => (Thrown e, caught e st2)
                 end, w2, insert_package pkg :: calls)))).
Proof.
  cbv zeta. unfold addOrUpdatePackageWithItinerary.
  rewrite run_try_catch, run_bind.
  split; [|split].
  - intros ->. reflexivity.
  - intros N B. destruct itineraryDescriptions as [|d r]; [congruence|].
    cbn [lift throw_if run List.length Nat.eqb]. rewrite run_bind.
    cbn [lift throw_if run]. rewrite B. reflexivity.
  - intros N B. destruct itineraryDescriptions as [|d r]; [congruence|].
    cbn [lift throw_if run List.length Nat.eqb]. rewrite run_bind.
    cbn [lift throw_if run]. rewrite B. cbv beta iota zeta.
    rewrite run_bind.
    split.
    + intros id T. rewrite T. rewrite run_updatePackage. split.
      * intros e w1 A. rewrite A. reflexivity.
      * intros row w1 o st2 w2 calls A U. rewrite A.
        cbv beta iota zeta.
        rewrite save_continues_with_itinerary, U.
        destruct o as [[]|e]; cbn; rewrite ?app_nil_r; reflexivity.
    + intros T. rewrite T. rewrite run_addPackage. split.
      * intros e w1 A. rewrite A. reflexivity.
      * intros row w1 o st2 w2 calls A U. rewrite A.
        cbv beta iota zeta.
        rewrite save_continues_with_itinerary, U.
        destruct o as [[]|e]; cbn; rewrite ?app_nil_r; reflexivity.
Qed.

(** ** Fetching *)

(** C6: the fetch makes one call, the query of all packages: filtered by
    the destination when one is given, not filtered when none is (or the
    empty string). When the backend answers with rows, those rows are
    the cached list afterwards (no row when it answers with null); when
    it fails the error string is set and the cached list is left exactly
    as it was. The loading flag ends false either way. *)
Theorem fetch_replaces_cache_or_keeps_it (destinationId : option jsstring)
  (st : state) (w : W) :
  let fetch := run answer (fetchPackages destinationId st) w in
  let q :=
    select_packages
      match destinationId with
      | Some (c :: r) => Some (c :: r)
      | _ => None
      end in
    snd fetch = [q] /\
    (forall d, destinationId = Some d -> d <> [] -> q = select_packages (Some d)) /\
    (destinationId = None \/ destinationId = Some [] -> q = select_packages None) /\
    (forall rows w1,
       answer q w = (Success (Some rows), w1) ->
       fetch = (Returned tt,
                {| packages := rows; loading := false;
                   error := error st; console := console st |},
                w1, [q])) /\
    (forall w1,
       answer q w = (Success None, w1) ->
       fetch = (Returned tt,
                {| packages := []; loading := false;
                   error := error st; console := console st |},
                w1, [q])) /\
    (forall e w1,
       answer q w = (Failure e, w1) ->
       fetch = (Returned tt,
                {| packages := packages st; loading := false;
                   error := Some (message_or e "An error occurred");
                   console := console st |},
                w1, [q])
       /\ packages (snd (fst (fst fetch))) = packages st
       /\ error (snd (fst (fst fetch))) = Some (message_or e "An error occurred")).
Proof.
  cbv zeta.
  assert (F : (if truthy_opt destinationId then destinationId else None)
              = match destinationId with
                | Some (c :: r) => Some (c :: r)
                | _ => None
                end)
    by (destruct destinationId as [[|c r]|]; reflexivity).
  unfold fetchPackages, query. rewrite F. cbn.
  destruct (answer (select_packages
                      match destinationId with
                      | Some (c :: r) => Some (c :: r)
                      | _ => None
                      end) w)
    as [[data|e] w1] eqn:A; cbn.
  - split; [reflexivity|]. split; [|split]; [| |split; [|split]].
    + intros d -> N. destruct d; [congruence|reflexivity].
    + intros [->| ->]; reflexivity.
    + intros rows w2 E. inversion E; subst. reflexivity.
    + intros w2 E. inversion E; subst. reflexivity.
    + intros e w2 E. discriminate E.
  - split; [reflexivity|]. split; [|split]; [| |split; [|split]].
    + intros d -> N. destruct d; [congruence|reflexivity].
    + intros [->| ->]; reflexivity.
    + intros rows w2 E. discriminate E.
    + intros w2 E. discriminate E.
    + intros e' w2 E. inversion E; subst. repeat split.
Qed.

(** ** Deleting *)

Lemma filter_removes (id : jsstring) (l : list Package.t) :
  removes id l (filter (fun p => negb (string_eqb (Package.id p) id)) l).
Proof.
  induction l as [|p l IH]; cbn [filter].
  - constructor.
  - destruct (string_eqb (Package.id p) id) eqn:E; cbn [negb].
    + apply removes_drop; [apply string_eqb_eq; exact E|exact IH].
    + apply removes_keep; [|exact IH].
      intros C. apply string_eqb_eq in C. congruence.
Qed.

(** C7: for every cached list and identifier, a delete the backend
    accepts leaves the cached list without its entries of that
    identifier, and with every other entry, unchanged and in its place
    among the others. *)
Theorem delete_removes_exactly_matching (id : jsstring) (st : state) (w w1 : W) :
  answer (delete_package id) w = (Success tt, w1) ->
  exists st',
    run answer (deletePackage id st) w = (Returned tt, st', w1, [delete_package id]) /\
    removes id (packages st) (packages st') /\
    packages st' = filter (fun p => negb (string_eqb (Package.id p) id)) (packages st) /\
    (forall p, In p (packages st') <-> In p (packages st) /\ Package.id p <> id).
Proof.
  intros A.
  exists (setPackages (filter (fun p => negb (string_eqb (Package.id p) id))) st).
  split; [|split; [|split]].
  - unfold deletePackage, query. cbn. rewrite A. reflexivity.
  - apply filter_removes.
  - reflexivity.
  - intros p. cbn [packages setPackages]. rewrite filter_In, negb_true_iff.
    split; intros [I H]; (split; [exact I|]).
    + intros C. apply string_eqb_eq in C. congruence.
    + destruct (string_eqb (Package.id p) id) eqn:E; [|reflexivity].
      apply string_eqb_eq in E. contradiction.
Qed.

End Backend.

(** ** On the reference backend *)

Import Backend.

(** An edit of [P1] whose package update fails: the update is the only
    call, and the caller gets its error. *)
Lemma composite_save_witness :
  run Backend.answer
    (addOrUpdatePackageWithItinerary bali_edit two_days fetched)
    (with_faults [Some (Error "boom")] stocked)
  = (Thrown (Error "boom"),
     log "Error saving package with itinerary:" (Error "boom")
       (log "Error updating package:" (Error "boom") fetched),
     stocked, [update_package (lit "P1") bali_edit]).
Proof.
  destruct (@composite_save_order db Backend.answer bali_edit two_days fetched
              (with_faults [Some (Error "boom")] stocked)) as [_ [_ H]].
  destruct (H ltac:(discriminate) ltac:(reflexivity)) as [U _].
  destruct (U (lit "P1") ltac:(reflexivity)) as [F _].
  apply F. reflexivity.
Defined.

(** A first fetch for the destination [D1], which finds [P1] alone; and
    a fetch the backend fails, after which the cached list stays. *)
Lemma fetch_witness :
  run Backend.answer (fetchPackages (Some (lit "D1")) initial) stocked
  = (Returned tt,
     {| packages := [bali_row]; loading := false; error := None; console := [] |},
     stocked, [select_packages (Some (lit "D1"))]) /\
  packages
    (snd (fst (fst (run Backend.answer (fetchPackages None fetched)
                      (with_faults [Some (Error "offline")] stocked)))))
  = packages fetched.
Proof.
  split.
  - destruct (@fetch_replaces_cache_or_keeps_it db Backend.answer (Some (lit "D1"))
                initial stocked) as [_ [_ [_ [R _]]]].
    exact (R [bali_row] stocked eq_refl).
  - destruct (@fetch_replaces_cache_or_keeps_it db Backend.answer None fetched
                (with_faults [Some (Error "offline")] stocked))
      as [_ [_ [_ [_ [_ F]]]]].
    destruct (F (Error "offline") stocked eq_refl) as [_ [K _]].
    exact K.
Defined.

(** [P1] deleted from a cache of [P1] and [P2]. *)
Lemma delete_witness :
  Backend.answer (delete_package (lit "P1")) stocked
  = (Success tt, with_packages [rome_row] stocked) /\
  exists st',
    run Backend.answer (deletePackage (lit "P1") fetched) stocked
    = (Returned tt, st', with_packages [rome_row] stocked, [delete_package (lit "P1")]) /\
    removes (lit "P1") (packages fetched) (packages st') /\
    packages st'
    = filter (fun p => negb (string_eqb (Package.id p) (lit "P1"))) (packages fetched) /\
    (forall p, In p (packages st') <->
               In p (packages fetched) /\ Package.id p <> lit "P1").
Proof.
  assert (A : Backend.answer (delete_package (lit "P1")) stocked
              = (Success tt, with_packages [rome_row] stocked))
    by (vm_compute; reflexivity).
  split.
  - exact A.
  - exact (@delete_removes_exactly_matching db Backend.answer (lit "P1") fetched
             stocked (with_packages [rome_row] stocked) A).
Defined.

(** ** Where the upsert departs from its description *)

(** C2 (where the code departs from it): [P1] has an itinerary row of
    five days; the upsert is given two descriptions. The update it sends
    names the description list only, so the row ends with two
    descriptions and a day count of five. *)
Theorem itinerary_update_keeps_day_count :
  run Backend.answer (addOrUpdateItinerary (lit "P1") two_days fetched) stocked
  = (Returned tt, fetched,
     with_itineraries
       [{| Itinerary.id := lit "I1";
           Itinerary.package_id := lit "P1";
           Itinerary.no_of_days := of_Z 5;
           Itinerary.description := two_days |}] stocked,
     [select_itinerary_id (lit "P1"); itinerary_update (lit "P1") two_days])
  /\ to_Z (of_Z 5) = Some 5
  /\ Z.of_nat (List.length two_days) = 2.
Proof.
  split; [|split; reflexivity].
  rewrite (@run_upsert_found db Backend.answer (lit "P1") two_days fetched
             stocked stocked (lit "I1") ltac:(reflexivity)).
  reflexivity.
Qed.

(** The other departure: a lookup the backend fails is taken for a
    missing row. Here [P1] has its row, the lookup fails, the error is
    lost, and a second row is inserted. *)
Lemma itinerary_lookup_failure_is_lost :
  run Backend.answer (addOrUpdateItinerary (lit "P1") two_days fetched)
    (with_faults [Some (Error "offline")] stocked)
  = (Returned tt, fetched,
     with_itineraries
       (itinerary_table stocked ++
        [{| Itinerary.id := lit "itin-7";
            Itinerary.package_id := lit "P1";
            Itinerary.no_of_days := of_Z 2;
            Itinerary.description := two_days |}]) stocked,
     [select_itinerary_id (lit "P1"); itinerary_insert (lit "P1") two_days]).
Proof.
  rewrite (@run_upsert_lookup_failed db Backend.answer (lit "P1") two_days fetched
             (with_faults [Some (Error "offline")] stocked) stocked (Error "offline")
             ltac:(reflexivity)).
  reflexivity.
Qed.

(** A package created with three days, on an empty store: one package
    insert, then the lookup and one itinerary insert with day count 3. *)
Example create_inserts_package_then_itinerary :
  snd (run Backend.answer
         (addOrUpdatePackageWithItinerary bali [lit "Day1"; lit "Day2"; lit "Day3"] initial)
         empty)
  = [insert_package bali;
     select_itinerary_id (lit "pkg-1");
     insert_itinerary
       {| ItineraryInsert.package_id := lit "pkg-1";
          ItineraryInsert.no_of_days := of_Z 3;
          ItineraryInsert.description := [lit "Day1"; lit "Day2"; lit "Day3"] |}].
Proof. vm_compute. reflexivity. Qed.

End HookFacts.

(* ===================================================================== *)
(** * More about the JavaScript values *)
(* ===================================================================== *)

Module JSMore.
Import JS JSFacts Load.

(** What [trimStart] leaves does not start with white space. *)
Lemma trimStart_head (s : jsstring) (c : code_unit) (r : jsstring) :
  trimStart s = c :: r -> is_whitespace c = false.
Proof.
  induction s as [|a l IH]; cbn; [discriminate|].
  destruct (is_whitespace a) eqn:E; [exact IH|].
  intros H. injection H as <- _. exact E.
Qed.

(** [trimStart] leaves alone a string that does not start with white
    space. *)
Lemma trimStart_fixed (s : jsstring) :
  (forall c r, s = c :: r -> is_whitespace c = false) -> trimStart s = s.
Proof.
  destruct s as [|c r]; [reflexivity|].
  intros H. cbn. rewrite (H c r eq_refl). reflexivity.
Qed.

(** [trimStart] keeps the end of a string that is not white space
    throughout. *)
Lemma trimStart_keeps_last (s : jsstring) (c : code_unit) :
  is_whitespace c = false -> trimStart (s ++ [c]) = trimStart s ++ [c].
Proof.
  intros H. induction s as [|a l IH]; cbn.
  - rewrite H. reflexivity.
  - destruct (is_whitespace a); [exact IH|reflexivity].
Qed.

Lemma last_of_rev (A : Type) (l r : list A) (c : A) :
  rev l = r ++ [c] -> l = c :: rev r.
Proof.
  intros H. apply (f_equal (@rev A)) in H.
  rewrite rev_involutive, rev_app_distr in H. exact H.
Qed.

(** What [trimEnd] leaves does not end with white space. *)
Lemma trimEnd_last (s : jsstring) (c : code_unit) (r : jsstring) :
  trimEnd s = r ++ [c] -> is_whitespace c = false.
Proof.
  unfold trimEnd. intros H. apply last_of_rev in H.
  exact (@trimStart_head _ _ _ H).
Qed.

(** [trimEnd] keeps the start of a string that does not start with white
    space. *)
Lemma trimEnd_keeps_head (s : jsstring) (c a : code_unit) (r l : jsstring) :
  s = c :: r -> is_whitespace c = false -> trimEnd s = a :: l -> a = c.
Proof.
  intros -> H. unfold trimEnd. cbn [rev].
  rewrite (@trimStart_keeps_last (rev r) c H), rev_app_distr. cbn.
  intros E. injection E as <- _. reflexivity.
Qed.

(** A string once trimmed neither starts nor ends with white space. *)
Lemma trim_trimmed (s : jsstring) : trimmed (trim s).
Proof.
  unfold trim. split.
  - intros c r H.
    destruct (trimStart s) as [|a l] eqn:T.
    + discriminate H.
    + rewrite (@trimEnd_keeps_head (a :: l) a c l r eq_refl (@trimStart_head s a l T) H).
      exact (@trimStart_head s a l T).
  - intros c r H. exact (@trimEnd_last _ _ _ H).
Qed.

(** Trimming a trimmed string changes nothing. *)
Lemma trim_fixed (s : jsstring) : trimmed s -> trim s = s.
Proof.
  intros [H T]. unfold trim. rewrite (@trimStart_fixed s H).
  unfold trimEnd. rewrite trimStart_fixed.
  - apply rev_involutive.
  - intros c r E. apply (f_equal (@rev _)) in E.
    rewrite rev_involutive in E. cbn [rev] in E.
    exact (T c (rev r) E).
Qed.

(** A string is blank once trimmed exactly when it is blank. *)
Lemma blank_trim (s : jsstring) : blank (trim s) = blank s.
Proof.
  unfold blank. rewrite (@trim_fixed (trim s) (trim_trimmed s)). reflexivity.
Qed.

End JSMore.

(* ===================================================================== *)
(** * More about the form *)
(* ===================================================================== *)

Module FormMore.
Import JS Eff Load Form JSFacts FormFacts JSMore.

(** ** What a passing state looks like *)

(** Every check of lines 88 to 119 holds of a state [validate] lets
    through. *)
Lemma validate_passes (st : state) :
  validate st = Returned tt ->
  truthy_string (selectedDestinationId st) = true /\
  blank (title st) = false /\
  blank (description st) = false /\
  truthy_string (duration st) = true /\
  le (parseInt (duration st)) zero = false /\
  truthy_string (price st) = true /\
  le (parseFloat (price st)) zero = false /\
  blank (mainImageUrl st) = false /\
  itineraryDescriptions st <> [] /\
  existsb blank (itineraryDescriptions st) = false.
Proof.
  unfold validate, throw_if.
  destruct (truthy_string (selectedDestinationId st)); cbn; [|discriminate].
  destruct (blank (title st)); cbn; [discriminate|].
  destruct (blank (description st)); cbn; [discriminate|].
  destruct (truthy_string (duration st)); cbn; [|discriminate].
  destruct (le (parseInt (duration st)) zero); cbn; [discriminate|].
  destruct (truthy_string (price st)); cbn; [|discriminate].
  destruct (le (parseFloat (price st)) zero); cbn; [discriminate|].
  destruct (blank (mainImageUrl st)); cbn; [discriminate|].
  destruct (itineraryDescriptions st) as [|d r]; cbn -[existsb]; [discriminate|].
  destruct (existsb blank (d :: r)); cbn; [discriminate|].
  intros _. repeat split; try reflexivity. discriminate.
Qed.

Lemma not_blank_trim (s : jsstring) : blank s = false -> trim s <> [].
Proof.
  unfold blank. destruct (trim s); cbn; [discriminate|]. intros _. discriminate.
Qed.

Lemma trimmed_entries (l : list jsstring) :
  existsb blank l = false ->
  Forall (fun d => d <> [] /\ trimmed d) (List.map trim l).
Proof.
  induction l as [|d r IH]; cbn [existsb List.map]; intros H.
  - constructor.
  - apply orb_false_iff in H as [B R]. constructor.
    + split; [apply not_blank_trim; exact B|apply trim_trimmed].
    + apply IH. exact R.
Qed.

(** The record a submit hands to [onSave], whenever the checks pass: a
    destination, texts that are not empty and neither start nor end with
    white space, as many itinerary entries as the form holds, at least
    one and none empty, a duration and a price that are not [<= 0], and
    an identifier only when the package prop has a truthy one. *)
Theorem saved_record_is_well_formed (props : Props) (st : state) :
  validate st = Returned tt ->
  let d := saveData props st in
  SaveData.destination_id d <> [] /\
  (SaveData.title d <> [] /\ trimmed (SaveData.title d)) /\
  (SaveData.description d <> [] /\ trimmed (SaveData.description d)) /\
  (SaveData.main_image_url d <> [] /\ trimmed (SaveData.main_image_url d)) /\
  le (SaveData.duration d) zero = false /\
  le (SaveData.price d) zero = false /\
  SaveData.itineraryDescriptions d <> [] /\
  List.length (SaveData.itineraryDescriptions d)
  = List.length (itineraryDescriptions st) /\
  Forall (fun x => x <> [] /\ trimmed x) (SaveData.itineraryDescriptions d) /\
  (SaveData.id d = None \/
   exists i, SaveData.id d = Some i /\ i <> [] /\ pkg_id props = Some i).
Proof.
  intros V. apply validate_passes in V.
  destruct V as [D [T [De [_ [Du [_ [P [U [N B]]]]]]]]].
  cbv zeta. cbn [saveData SaveData.destination_id SaveData.title SaveData.description
                 SaveData.main_image_url SaveData.duration SaveData.price
                 SaveData.itineraryDescriptions SaveData.id].
  split. { destruct (selectedDestinationId st); [discriminate D|discriminate]. }
  split. { split; [apply not_blank_trim; exact T|apply trim_trimmed]. }
  split. { split; [apply not_blank_trim; exact De|apply trim_trimmed]. }
  split. { split; [apply not_blank_trim; exact U|apply trim_trimmed]. }
  split; [exact Du|]. split; [exact P|].
  split. { destruct (itineraryDescriptions st); [congruence|discriminate]. }
  split; [apply length_map|].
  split; [apply trimmed_entries; exact B|].
  destruct (pkg_id props) as [[|c r]|]; cbn; [left; reflexivity| |left; reflexivity].
  right. exists (c :: r). repeat split. discriminate.
Qed.

(** The record saved for the form filled in with "2.9" days. *)
Lemma saved_record_witness :
  validate fractional_duration_form = Returned tt /\
  let d := saveData create_mode fractional_duration_form in
  SaveData.destination_id d <> [] /\
  (SaveData.title d <> [] /\ trimmed (SaveData.title d)) /\
  (SaveData.description d <> [] /\ trimmed (SaveData.description d)) /\
  (SaveData.main_image_url d <> [] /\ trimmed (SaveData.main_image_url d)) /\
  le (SaveData.duration d) zero = false /\
  le (SaveData.price d) zero = false /\
  SaveData.itineraryDescriptions d <> [] /\
  List.length (SaveData.itineraryDescriptions d)
  = List.length (itineraryDescriptions fractional_duration_form) /\
  Forall (fun x => x <> [] /\ trimmed x) (SaveData.itineraryDescriptions d) /\
  (SaveData.id d = None \/
   exists i, SaveData.id d = Some i /\ i <> [] /\ pkg_id create_mode = Some i).
Proof.
  assert (V : validate fractional_duration_form = Returned tt)
    by (vm_compute; reflexivity).
  split; [exact V|].
  exact (@saved_record_is_well_formed create_mode fractional_duration_form V).
Defined.

(** ** What a submit invokes *)

(** Every submit, whatever the state and whatever the callbacks do,
    invokes nothing, or [onSave] once with the record of the form, or that
    and then [onClose] once: nothing when and only when a check throws,
    [onClose] when and only when the checks pass and [onSave] returns. It
    ends with the loading flag false and every field cell as it was. *)
Theorem submit_invokes_in_order
  (W : Type) (answer : forall c, W -> callback_result c * W)
  (props : Props) (st : state) (w : W) :
  let save := onSave (saveData props st) in
  let '(st', _, calls) := submit answer props st w in
  (calls = [] \/ calls = [save] \/ calls = [save; onClose]) /\
  (calls = [] <-> exists e, validate st = Thrown e) /\
  (In onClose calls <->
   validate st = Returned tt /\ fst (answer save w) = Returned tt) /\
  loading st' = false /\
  same_fields st' st.
Proof.
  cbv zeta. rewrite submit_unfold.
  assert (U : same_fields (setLoading false (setError (lit "") st)) st)
    by (repeat split).
  assert (F : forall msg, same_fields (setLoading false (setError msg st)) st)
    by (intros msg; repeat split).
  destruct (validate st) as [[]|e]; cbv zeta.
  - destruct (answer (onSave (saveData props st)) w) as [[[]|e1] w1]; cbn [fst].
    + destruct (answer onClose w1) as [[[]|e2] w2];
        (split; [auto|split; [|split; [|split; [reflexivity|auto]]]]).
      * split; [discriminate|intros [e E]; discriminate E].
      * split; [auto|intros _; cbn; auto].
      * split; [discriminate|intros [e E]; discriminate E].
      * split; [auto|intros _; cbn; auto].
    + split; [auto|split; [|split; [|split; [reflexivity|auto]]]].
      * split; [discriminate|intros [e E]; discriminate E].
      * split; [intros [I|[]]; discriminate I|intros [_ E]; discriminate E].
  - split; [auto|split; [|split; [|split; [reflexivity|auto]]]].
    + split; [intros _; exists e; reflexivity|reflexivity].
    + split; [intros []|intros [E _]; discriminate E].
Qed.

(** ** The duration effect, applied again *)

Lemma or_else_above_zero (x : number) :
  gt (or_else x zero) zero = true -> or_else x zero = x.
Proof.
  unfold or_else. destruct (truthy_number x); [reflexivity|discriminate].
Qed.

Lemma to_array_length_range (x : number) (n : Z) :
  to_array_length x = Some n -> 0 <= n <= max_array_length.
Proof.
  unfold to_array_length. destruct (to_Z x) as [z|]; [|discriminate].
  destruct (0 <=? z) eqn:L; destruct (z <=? max_array_length) eqn:U;
    cbn; try discriminate.
  intros E. injection E as <-. apply Z.leb_le in L, U. lia.
Qed.

(** The list the effect leaves: empty for a duration that is not above
    zero, the padded and cut list for a duration that is an Array
    length. *)
Lemma duration_effect_cases (duration : jsstring) (prev l : list jsstring) :
  duration_effect duration prev = Returned l ->
  (gt (or_else (parseInt duration) zero) zero = false /\ l = []) \/
  (exists n,
     gt (parseInt duration) zero = true /\
     to_array_length (parseInt duration) = Some n /\
     l = firstn (Z.to_nat n) (prev ++ repeat (lit "") (Z.to_nat n - List.length prev))).
Proof.
  unfold duration_effect.
  destruct (gt (or_else (parseInt duration) zero) zero) eqn:G.
  - pose proof (or_else_above_zero _ G) as O. rewrite O in G |- *.
    destruct (to_array_length (parseInt duration)) as [n|] eqn:A.
    + rewrite (@resize_closed_form _ _ prev A). intros E. injection E as <-.
      right. exists n. split; [exact G|split; reflexivity].
    + unfold resize. rewrite A. discriminate.
  - intros E. injection E as <-. left. split; reflexivity.
Qed.

(** Where the entries of the list the effect leaves come from. *)
Lemma duration_effect_entries (duration : jsstring) (prev l : list jsstring) :
  duration_effect duration prev = Returned l ->
  (forall i, (i < List.length prev)%nat -> (i < List.length l)%nat ->
             nth_error l i = nth_error prev i) /\
  (forall i, (List.length prev <= i)%nat -> (i < List.length l)%nat ->
             nth_error l i = Some (lit "")).
Proof.
  intros E. destruct (duration_effect_cases _ _ E) as [[_ ->]|[n [_ [_ ->]]]].
  - split; intros i _ H; cbn in H; lia.
  - destruct (resized_entries (Z.to_nat n) prev) as [_ [K P]]. split; assumption.
Qed.

(** The effect run again on the list it left, for the same duration,
    leaves that list: a render that repeats the effect changes nothing. *)
Theorem duration_effect_idempotent (duration : jsstring) (prev l : list jsstring) :
  duration_effect duration prev = Returned l ->
  duration_effect duration l = Returned l.
Proof.
  intros E. destruct (duration_effect_cases _ _ E) as [[G ->]|[n [G [A ->]]]].
  - unfold duration_effect. rewrite G. reflexivity.
  - destruct (resized_entries (Z.to_nat n) prev) as [Len _].
    set (l := firstn (Z.to_nat n) _) in *.
    unfold duration_effect.
    assert (T : truthy_number (parseInt duration) = true).
    { destruct (parseInt duration) as [s|s| |s m e]; try reflexivity;
        discriminate G. }
    unfold or_else. rewrite T, G, (@resize_closed_form _ _ l A), Len.
    rewrite Nat.sub_diag. cbn [repeat]. rewrite app_nil_r, <- Len, firstn_all.
    reflexivity.
Qed.

(** Four days asked for twice. *)
Lemma duration_effect_idempotent_witness :
  duration_effect (lit "4") [lit "Day1"; lit "Day2"]
  = Returned [lit "Day1"; lit "Day2"; lit ""; lit ""] /\
  duration_effect (lit "4") [lit "Day1"; lit "Day2"; lit ""; lit ""]
  = Returned [lit "Day1"; lit "Day2"; lit ""; lit ""].
Proof.
  assert (E : duration_effect (lit "4") [lit "Day1"; lit "Day2"]
              = Returned [lit "Day1"; lit "Day2"; lit ""; lit ""])
    by (vm_compute; reflexivity).
  split; [exact E|].
  exact (@duration_effect_idempotent (lit "4") [lit "Day1"; lit "Day2"] _ E).
Defined.

(** A shorter duration loses the entries it cuts: after two changes of
    the duration, an entry of the list is the prior one only below the
    prior length and below the length in between, and is empty anywhere
    else, whatever the prior list held there. *)
Theorem duration_effect_forgets_cut_entries
  (d1 d2 : jsstring) (prev l1 l2 : list jsstring) :
  duration_effect d1 prev = Returned l1 ->
  duration_effect d2 l1 = Returned l2 ->
  forall i, (i < List.length l2)%nat ->
    nth_error l2 i =
    if (i <? Nat.min (List.length prev) (List.length l1))%nat
    then nth_error prev i
    else Some (lit "").
Proof.
  intros E1 E2 i H.
  destruct (duration_effect_entries _ _ E1) as [K1 P1].
  destruct (duration_effect_entries _ _ E2) as [K2 P2].
  destruct (Nat.ltb_spec i (Nat.min (List.length prev) (List.length l1))) as [L|G].
  - rewrite K2 by lia. apply K1; lia.
  - destruct (Nat.lt_ge_cases i (List.length l1)) as [I|I].
    + rewrite K2 by lia. apply P1; lia.
    + apply P2; lia.
Qed.

(** Three days cut to one, then back to three. *)
Lemma duration_effect_forgets_witness :
  duration_effect (lit "1") [lit "Day1"; lit "Day2"; lit "Day3"]
  = Returned [lit "Day1"] /\
  duration_effect (lit "3") [lit "Day1"] = Returned [lit "Day1"; lit ""; lit ""] /\
  forall i, (i < List.length [lit "Day1"; lit ""; lit ""])%nat ->
    nth_error [lit "Day1"; lit ""; lit ""] i =
    if (i <? Nat.min (List.length [lit "Day1"; lit "Day2"; lit "Day3"])
                     (List.length [lit "Day1"]))%nat
    then nth_error [lit "Day1"; lit "Day2"; lit "Day3"] i
    else Some (lit "").
Proof.
  assert (E1 : duration_effect (lit "1") [lit "Day1"; lit "Day2"; lit "Day3"]
               = Returned [lit "Day1"]) by (vm_compute; reflexivity).
  assert (E2 : duration_effect (lit "3") [lit "Day1"]
               = Returned [lit "Day1"; lit ""; lit ""]) by (vm_compute; reflexivity).
  split; [exact E1|]. split; [exact E2|].
  exact (@duration_effect_forgets_cut_entries _ _ _ _ _ E1 E2).
Defined.

(** ** The duration and the itinerary, together *)

(** In a form whose itinerary list is what the duration effect left, a
    submit that passes the checks saves a duration that [parseInt] did
    read, above zero, and equal to the number of itinerary entries saved:
    a duration [parseInt] cannot read never reaches [onSave] from there. *)
Theorem settled_form_saves_matching_duration (props : Props) (st : state) :
  settled st ->
  validate st = Returned tt ->
  let d := saveData props st in
  gt (SaveData.duration d) zero = true /\
  0 < integer_prefix (duration st) /\
  to_array_length (SaveData.duration d)
  = Some (Z.of_nat (List.length (SaveData.itineraryDescriptions d))) /\
  List.length (SaveData.itineraryDescriptions d)
  = List.length (itineraryDescriptions st).
Proof.
  intros [prev E] V. apply validate_passes in V.
  destruct V as [_ [_ [_ [_ [_ [_ [_ [_ [N _]]]]]]]]].
  cbv zeta. cbn [saveData SaveData.duration SaveData.itineraryDescriptions].
  rewrite length_map.
  destruct (duration_effect_cases _ _ E) as [[_ Nil]|[n [G [A L]]]]; [congruence|].
  split; [exact G|]. split; [apply parseInt_positive_prefix; exact G|].
  split; [|reflexivity].
  rewrite A, L. f_equal.
  destruct (resized_entries (Z.to_nat n) prev) as [Len _]. rewrite Len.
  apply to_array_length_range in A. lia.
Qed.

(** The form of two days and a duration of "2.9". *)
Lemma settled_form_witness :
  settled fractional_duration_form /\
  validate fractional_duration_form = Returned tt /\
  let d := saveData create_mode fractional_duration_form in
  gt (SaveData.duration d) zero = true /\
  0 < integer_prefix (duration fractional_duration_form) /\
  to_array_length (SaveData.duration d)
  = Some (Z.of_nat (List.length (SaveData.itineraryDescriptions d))) /\
  List.length (SaveData.itineraryDescriptions d)
  = List.length (itineraryDescriptions fractional_duration_form).
Proof.
  assert (S : settled fractional_duration_form).
  { exists [lit "Day1"; lit "Day2"]. vm_compute. reflexivity. }
  assert (V : validate fractional_duration_form = Returned tt)
    by (vm_compute; reflexivity).
  split; [exact S|]. split; [exact V|].
  exact (@settled_form_saves_matching_duration create_mode fractional_duration_form S V).
Defined.

(** ** [handleItineraryChange] past the end *)

Lemma set_element_beyond (index : nat) (value : jsstring) :
  let l := set_element [] index value in
  List.length l = S index /\
  nth_error l index = Some (Some value) /\
  (forall j, (j < index)%nat -> nth_error l j = Some None).
Proof.
  induction index as [|i [L [V H]]]; cbn.
  - repeat split. intros j J. lia.
  - repeat split.
    + rewrite L. reflexivity.
    + exact V.
    + intros [|j] J; [reflexivity|]. cbn. apply H. lia.
Qed.

Lemma set_element_past_the_end
  (prev : list jsstring) (index : nat) (value : jsstring) :
  (List.length prev <= index)%nat ->
  let l := set_element prev index value in
  List.length l = S index /\
  nth_error l index = Some (Some value) /\
  (forall j, (j < List.length prev)%nat ->
             nth_error l j = option_map Some (nth_error prev j)) /\
  (forall j, (List.length prev <= j)%nat -> (j < index)%nat ->
             nth_error l j = Some None).
Proof.
  revert index.
  induction prev as [|x r IH]; intros index H.
  - destruct (set_element_beyond index value) as [L [V O]].
    cbv zeta. repeat split; try assumption.
    + intros j J. cbn in J. lia.
    + intros j _ J. apply O. exact J.
  - destruct index as [|i]; cbn in H; [lia|].
    destruct (IH i ltac:(lia)) as [L [V [K O]]].
    cbn. repeat split.
    + rewrite L. reflexivity.
    + exact V.
    + intros [|j] J; [reflexivity|]. cbn. apply K. lia.
    + intros [|j] J1 J2; [lia|]. cbn. apply O; lia.
Qed.

(** For an index at or past the end of the list, what
    [handleItineraryChange] leaves depends on the index. Up to
    [2^32 - 2], the largest index an Array has, the list grows: the
    entries it had, holes from its old length up to the index, and the
    new value at the index, which is last. Above that the assignment
    defines an ordinary property: no entry changes and the list keeps
    its length. *)
Theorem itinerary_change_past_the_end
  (prev : list jsstring) (index : nat) (value : jsstring) :
  (List.length prev <= index)%nat ->
  let l := handleItineraryChange index value prev in
  ((Z.of_nat index <= 4294967294)%Z ->
   List.length l = S index /\
   nth_error l index = Some (Some value) /\
   (forall j, (j < List.length prev)%nat ->
              nth_error l j = option_map Some (nth_error prev j)) /\
   (forall j, (List.length prev <= j)%nat -> (j < index)%nat ->
              nth_error l j = Some None)) /\
  ((4294967294 < Z.of_nat index)%Z ->
   l = List.map Some prev /\ List.length l = List.length prev).
Proof.
  intros H. unfold handleItineraryChange, array_set, is_array_index, max_array_length.
  rewrite (proj2 (Nat.ltb_ge _ _) H). cbn [orb]. cbv zeta. split; intros A.
  - rewrite (proj2 (Z.ltb_lt _ _)) by lia.
    apply set_element_past_the_end. exact H.
  - rewrite (proj2 (Z.ltb_ge _ _)) by lia.
    split; [reflexivity|apply length_map].
Qed.

(** A fifth day written into a list of three. *)
Lemma itinerary_change_past_the_end_witness :
  (List.length [lit "a"; lit "b"; lit "c"] <= 4)%nat /\
  handleItineraryChange 4 (lit "z") [lit "a"; lit "b"; lit "c"]
  = [Some (lit "a"); Some (lit "b"); Some (lit "c"); None; Some (lit "z")] /\
  let l := handleItineraryChange 4 (lit "z") [lit "a"; lit "b"; lit "c"] in
  List.length l = 5%nat /\
  nth_error l 4 = Some (Some (lit "z")) /\
  (forall j, (j < List.length [lit "a"; lit "b"; lit "c"])%nat ->
             nth_error l j = option_map Some (nth_error [lit "a"; lit "b"; lit "c"] j)) /\
  (forall j, (List.length [lit "a"; lit "b"; lit "c"] <= j)%nat -> (j < 4)%nat ->
             nth_error l j = Some None).
Proof.
  assert (B : (List.length [lit "a"; lit "b"; lit "c"] <= 4)%nat) by (cbn; lia).
  split; [exact B|]. split; [vm_compute; reflexivity|].
  apply (proj1 (@itinerary_change_past_the_end [lit "a"; lit "b"; lit "c"] 4 (lit "z") B)).
  cbn. lia.
Defined.

End FormMore.

(* ===================================================================== *)
(** * More about the hook *)
(* ===================================================================== *)

Module HookMore.
Import JS Eff Load Hook JSFacts EffFacts HookFacts JSMore.

Lemma string_eqb_neq (a b : jsstring) : string_eqb a b = false <-> a <> b.
Proof.
  unfold string_eqb. destruct (list_eq_dec N.eq_dec a b); split; congruence.
Qed.

Lemma map_replace_absent (id : jsstring) (row : Package.t) (l : list Package.t) :
  (forall p, In p l -> Package.id p <> id) ->
  List.map (fun p => if string_eqb (Package.id p) id then row else p) l = l.
Proof.
  induction l as [|p r IH]; intros H; cbn [List.map]; [reflexivity|].
  rewrite IH by (intros q I; apply H; right; exact I).
  destruct (string_eqb (Package.id p) id) eqn:E; [|reflexivity].
  apply string_eqb_eq in E. exfalso. exact (H p (or_introl eq_refl) E).
Qed.

Lemma filter_absent (id : jsstring) (l : list Package.t) :
  (forall p, In p l -> Package.id p <> id) ->
  filter (fun p => negb (string_eqb (Package.id p) id)) l = l.
Proof.
  induction l as [|p r IH]; intros H; cbn [filter]; [reflexivity|].
  rewrite IH by (intros q I; apply H; right; exact I).
  destruct (string_eqb (Package.id p) id) eqn:E; [|reflexivity].
  apply string_eqb_eq in E. exfalso. exact (H p (or_introl eq_refl) E).
Qed.

Section Backend.
Variable W : Type.
Variable answer : forall q : request, W -> reply q * W.

Lemma run_deletePackage (id : jsstring) (st : state) (w : W) :
  run answer (deletePackage id st) w =
  let '(r, w1) := answer (delete_package id) w in
  match r with
  | Success _ =>
      (Returned tt,
       setPackages (filter (fun p => negb (string_eqb (Package.id p) id))) st,
       w1, [delete_package id])
  | Failure e =>
      (Thrown e, log "Error deleting package:" e st, w1, [delete_package id])
  end.
Proof.
  unfold deletePackage, query. cbn.
  destruct (answer (delete_package id) w) as [[[]|e] w1]; reflexivity.
Qed.

Lemma run_getItinerary (packageId : jsstring) (st : state) (w : W) :
  run answer (getItinerary packageId st) w =
  let '(r, w1) := answer (select_itinerary packageId) w in
  match r with
  | Success data => (Returned data, st, w1, [select_itinerary packageId])
  | Failure e =>
      (Thrown e, log "Error fetching itinerary:" e st, w1, [select_itinerary packageId])
  end.
Proof.
  unfold getItinerary, query. cbn.
  destruct (answer (select_itinerary packageId) w) as [[data|e] w1]; reflexivity.
Qed.

Lemma run_fetchPackages (destinationId : option jsstring) (st : state) (w : W) :
  run answer (fetchPackages destinationId st) w =
  let q := select_packages (if truthy_opt destinationId then destinationId else None) in
  let '(r, w1) := answer q w in
  (Returned tt,
   match r with
   | Success data => setLoading false (setPackages (fun _ => rows_of data) st)
   | Failure e => setLoading false (setError (Some (message_or e "An error occurred")) st)
   end, w1, [q]).
Proof.
  unfold fetchPackages, query. cbn.
  destruct (answer (select_packages _) w) as [[data|e] w1]; reflexivity.
Qed.

(** ** Updating *)

(** An update the backend accepts replaces, in place, the cached entries
    of that identifier by the row returned, and leaves every other entry
    and the length of the list as they were; a cache without the
    identifier is left as it was: the row is not added. *)
Theorem update_replaces_matching_entries
  (id : jsstring) (updates : PackageInput.t) (row : Package.t)
  (st : state) (w w1 : W) :
  answer (update_package id updates) w = (Success row, w1) ->
  exists st',
    run answer (updatePackage id updates st) w
    = (Returned row, st', w1, [update_package id updates]) /\
    List.length (packages st') = List.length (packages st) /\
    (forall i p, nth_error (packages st) i = Some p ->
       (Package.id p = id -> nth_error (packages st') i = Some row) /\
       (Package.id p <> id -> nth_error (packages st') i = Some p)) /\
    ((forall p, In p (packages st) -> Package.id p <> id) ->
     packages st' = packages st) /\
    loading st' = loading st /\ error st' = error st /\ console st' = console st.
Proof.
  intros A. eexists. split.
  - rewrite run_updatePackage, A. reflexivity.
  - cbn [packages setPackages loading error console].
    split; [apply length_map|]. split; [|split; [apply map_replace_absent|auto]].
    intros i p N. rewrite nth_error_map, N. cbn [option_map].
    split; intros E.
    + apply string_eqb_eq in E. rewrite E. reflexivity.
    + apply string_eqb_neq in E. rewrite E. reflexivity.
Qed.

(** ** Writes the backend refuses *)

(** An insert, an update or a delete the backend fails makes that one
    request, throws the backend's error to the caller, and leaves the
    cached list, the loading flag and the error string as they were; the
    console gets one line. *)
Theorem failed_write_keeps_cache
  (pkg : PackageInput.t) (id : jsstring) (st : state) (w : W) :
  (forall e w1,
     answer (insert_package pkg) w = (Failure e, w1) ->
     run answer (addPackage pkg st) w
     = (Thrown e, log "Error adding package:" e st, w1, [insert_package pkg])) /\
  (forall e w1,
     answer (update_package id pkg) w = (Failure e, w1) ->
     run answer (updatePackage id pkg st) w
     = (Thrown e, log "Error updating package:" e st, w1, [update_package id pkg])) /\
  (forall e w1,
     answer (delete_package id) w = (Failure e, w1) ->
     run answer (deletePackage id st) w
     = (Thrown e, log "Error deleting package:" e st, w1, [delete_package id])) /\
  (forall label e,
     packages (log label e st) = packages st /\
     loading (log label e st) = loading st /\
     error (log label e st) = error st /\
     console (log label e st) = console st ++ [(lit label, e)]).
Proof.
  split; [|split; [|split]].
  - intros e w1 A. rewrite run_addPackage, A. reflexivity.
  - intros e w1 A. rewrite run_updatePackage, A. reflexivity.
  - intros e w1 A. rewrite run_deletePackage, A. reflexivity.
  - intros label e. repeat split.
Qed.

(** ** Adding, then deleting *)

(** A package added and then deleted by the identifier the backend gave
    it leaves the cached list as it was before the two, provided no cached
    entry had that identifier. *)
Theorem add_then_delete_restores_cache
  (pkg : PackageInput.t) (row : Package.t) (st st1 st2 : state)
  (w w1 w2 : W) (c1 c2 : list request) :
  run answer (addPackage pkg st) w = (Returned row, st1, w1, c1) ->
  run answer (deletePackage (Package.id row) st1) w1 = (Returned tt, st2, w2, c2) ->
  (forall p, In p (packages st) -> Package.id p <> Package.id row) ->
  packages st1 = row :: packages st /\
  packages st2 = packages st /\
  c1 ++ c2 = [insert_package pkg; delete_package (Package.id row)].
Proof.
  intros A D F. rewrite run_addPackage in A.
  destruct (answer (insert_package pkg) w) as [[r|e] w'] eqn:EA; [|discriminate A].
  inversion A; subst; clear A.
  rewrite run_deletePackage in D.
  destruct (answer (delete_package (Package.id row)) w1) as [[[]|e] w'] eqn:ED;
    [|discriminate D].
  inversion D; subst; clear D.
  cbn [packages setPackages filter].
  assert (S : string_eqb (Package.id row) (Package.id row) = true)
    by (apply string_eqb_eq; reflexivity).
  rewrite S. cbn [negb]. rewrite (@filter_absent _ _ F). repeat split.
Qed.

(** ** Deleting what is not cached *)

(** A delete the backend accepts, of an identifier no cached entry has,
    leaves the hook's state as it was: a second delete of the same
    package changes nothing more. *)
Theorem delete_absent_changes_nothing (id : jsstring) (st : state) (w w1 : W) :
  answer (delete_package id) w = (Success tt, w1) ->
  (forall p, In p (packages st) -> Package.id p <> id) ->
  run answer (deletePackage id st) w
  = (Returned tt, st, w1, [delete_package id]).
Proof.
  intros A F. rewrite run_deletePackage, A.
  unfold setPackages. rewrite (@filter_absent _ _ F). destruct st; reflexivity.
Qed.

(** ** Reading an itinerary *)

(** [getItinerary] makes one query and changes no cell of the hook. It
    returns the row the backend found, or null when the backend found
    none; a query the backend fails is thrown to the caller, never
    returned as null. *)
Theorem getItinerary_reports_failure (packageId : jsstring) (st : state) (w : W) :
  let '(o, st', _, calls) := run answer (getItinerary packageId st) w in
  calls = [select_itinerary packageId] /\
  packages st' = packages st /\ loading st' = loading st /\ error st' = error st /\
  (forall data, o = Returned data <->
                fst (answer (select_itinerary packageId) w) = Success data) /\
  (forall e, o = Thrown e <->
             fst (answer (select_itinerary packageId) w) = Failure e).
Proof.
  rewrite run_getItinerary.
  destruct (answer (select_itinerary packageId) w) as [[data|e] w1]; cbn [fst];
    repeat split; intros; try discriminate;
    match goal with H : _ = _ |- _ => inversion H; reflexivity end.
Qed.

(** ** The itinerary upsert *)

Lemma run_upsert (packageId : jsstring) (description : list jsstring)
  (st : state) (w : W) :
  let '(lookup, w1) := answer (select_itinerary_id packageId) w in
  let write :=
    match lookup with
    | Success (Some _) => itinerary_update packageId description
    | _ => itinerary_insert packageId description
    end in
  forall r w2, answer write w1 = (r, w2) ->
  run answer (addOrUpdateItinerary packageId description st) w =
  (match r with
   | Success _ => (Returned tt, st)
   | Failure e => (Thrown e, log "Error saving itinerary:" e st)
   end, w2, [select_itinerary_id packageId; write]).
Proof.
  destruct (answer (select_itinerary_id packageId) w) as [[[row_id|]|lost] w1] eqn:E;
    cbv zeta; intros r w2 A.
  - rewrite (@run_upsert_found W answer packageId description st w w1 row_id E), A.
    reflexivity.
  - rewrite (@run_upsert_missing W answer packageId description st w w1 E), A.
    reflexivity.
  - rewrite (@run_upsert_lookup_failed W answer packageId description st w w1 lost E), A.
    reflexivity.
Qed.

(** The upsert leaves the cached list, the loading flag and the error
    string as they were. *)
Lemma upsert_keeps_cells (packageId : jsstring) (description : list jsstring)
  (st : state) (w : W) :
  let '(_, st', _, _) := run answer (addOrUpdateItinerary packageId description st) w in
  packages st' = packages st /\ loading st' = loading st /\ error st' = error st.
Proof.
  pose proof (run_upsert packageId description st w) as R.
  destruct (answer (select_itinerary_id packageId) w) as [lookup w1].
  cbv zeta in R.
  destruct (answer
              match lookup with
              | Success (Some _) => itinerary_update packageId description
              | _ => itinerary_insert packageId description
              end w1) as [r w2] eqn:A.
  rewrite (R r w2 eq_refl). destruct r as [d|e]; repeat split.
Qed.

(** Whatever the backend does, the upsert makes two requests: the lookup
    of the row, then one write for the same package with the
    descriptions given, an update when and only when the lookup found a
    row, an insert otherwise. It throws only what that write failed
    with, and changes no cell of the hook. *)
Theorem upsert_makes_one_lookup_and_one_write
  (packageId : jsstring) (description : list jsstring) (st : state) (w : W) :
  let '(o, st', _, calls) := run answer (addOrUpdateItinerary packageId description st) w in
  let '(lookup, w1) := answer (select_itinerary_id packageId) w in
  packages st' = packages st /\ loading st' = loading st /\ error st' = error st /\
  exists write,
    calls = [select_itinerary_id packageId; write] /\
    (((exists row_id, lookup = Success (Some row_id)) /\
      write = itinerary_update packageId description) \/
     ((forall row_id, lookup <> Success (Some row_id)) /\
      write = itinerary_insert packageId description)) /\
    (o = Returned tt \/
     exists e, o = Thrown e /\ fst (answer write w1) = Failure e).
Proof.
  pose proof (upsert_keeps_cells packageId description st w) as K.
  pose proof (run_upsert packageId description st w) as R.
  destruct (answer (select_itinerary_id packageId) w) as [lookup w1].
  cbv zeta in R.
  destruct (answer
              match lookup with
              | Success (Some _) => itinerary_update packageId description
              | _ => itinerary_insert packageId description
              end w1) as [r w2] eqn:A.
  rewrite (R r w2 eq_refl) in K |- *.
  assert (O : (match r with
               | Success _ => Returned tt
               | Failure e => Thrown e
               end = Returned tt)
              \/ exists e, match r with
                           | Success _ => Returned tt
                           | Failure e => Thrown e
                           end = Thrown (A:=unit) e /\ r = Failure e).
  { destruct r as [d|e]; [left; reflexivity|right; exists e; split; reflexivity]. }
  destruct lookup as [[row_id|]|lost].
  - destruct r as [d|e]; (split; [apply K|split; [apply K|split; [apply K|]]]);
      eexists; (split; [reflexivity|]);
      (split; [left; split; [exists row_id; reflexivity|reflexivity]|]).
    + left. reflexivity.
    + right. exists e. rewrite A. split; reflexivity.
  - destruct r as [d|e]; (split; [apply K|split; [apply K|split; [apply K|]]]);
      eexists; (split; [reflexivity|]);
      (split; [right; split; [intros row_id; discriminate|reflexivity]|]).
    + left. reflexivity.
    + right. exists e. rewrite A. split; reflexivity.
  - destruct r as [d|e]; (split; [apply K|split; [apply K|split; [apply K|]]]);
      eexists; (split; [reflexivity|]);
      (split; [right; split; [intros row_id; discriminate|reflexivity]|]).
    + left. reflexivity.
    + right. exists e. rewrite A. split; reflexivity.
Qed.

(** ** The composite save, past its checks *)

Lemma run_composite_checked (pkg : PackageInput.t)
  (itineraryDescriptions : list jsstring) (st : state) (w : W) :
  itineraryDescriptions <> [] ->
  existsb blank itineraryDescriptions = false ->
  run answer (addOrUpdatePackageWithItinerary pkg itineraryDescriptions st) w =
  let '(o, st1, w1, c1) := run answer (package_write pkg st) w in
  match o with
  | Thrown e => (Thrown e, log "Error saving package with itinerary:" e st1, w1, c1)
  | Returned row =>
      let '(o2, st2, w2, c2) :=
        run answer (addOrUpdateItinerary (Package.id row) itineraryDescriptions st1) w1 in
      (match o2 with
       | Returned _ => (Returned row, st2)
       | Thrown e => (Thrown e, log "Error saving package with itinerary:" e st2)
       end, w2, c1 ++ c2)
  end.
Proof.
  intros N B. unfold addOrUpdatePackageWithItinerary.
  rewrite run_try_catch, run_bind.
  destruct itineraryDescriptions as [|d r]; [congruence|].
  cbn [lift throw_if run List.length Nat.eqb]. rewrite run_bind.
  cbn [lift throw_if run]. rewrite B. cbv beta iota zeta.
  rewrite run_bind. unfold package_write.
  destruct (truthy_id pkg) as [id|].
  - rewrite run_updatePackage.
    destruct (answer (update_package id pkg) w) as [[row|e] w1];
      cbv beta iota zeta; [|reflexivity].
    rewrite save_continues_with_itinerary.
    destruct (run answer (addOrUpdateItinerary (Package.id row) (d :: r) _) w1)
      as [[[[[]|e] st2] w2] c2]; cbn; rewrite ?app_nil_r; reflexivity.
  - rewrite run_addPackage.
    destruct (answer (insert_package pkg) w) as [[row|e] w1];
      cbv beta iota zeta; [|reflexivity].
    rewrite save_continues_with_itinerary.
    destruct (run answer (addOrUpdateItinerary (Package.id row) (d :: r) _) w1)
      as [[[[[]|e] st2] w2] c2]; cbn; rewrite ?app_nil_r; reflexivity.
Qed.

(** The two writes are not undone by one another: when the package write
    succeeded and the itinerary upsert then throws, the caller gets the
    upsert's error, and the cached list stays as the package write left
    it, with the row inserted at its head when the package was new. *)
Theorem failed_itinerary_write_keeps_package
  (pkg : PackageInput.t) (itineraryDescriptions : list jsstring)
  (row : Package.t) (e : thrown) (st st1 st2 : state) (w w1 w2 : W)
  (c1 c2 : list request) :
  itineraryDescriptions <> [] ->
  existsb blank itineraryDescriptions = false ->
  run answer (package_write pkg st) w = (Returned row, st1, w1, c1) ->
  run answer (addOrUpdateItinerary (Package.id row) itineraryDescriptions st1) w1
  = (Thrown e, st2, w2, c2) ->
  exists st',
    run answer (addOrUpdatePackageWithItinerary pkg itineraryDescriptions st) w
    = (Thrown e, st', w2, c1 ++ c2) /\
    packages st' = packages st1 /\
    (truthy_id pkg = None -> packages st' = row :: packages st).
Proof.
  intros N B P U.
  pose proof (upsert_keeps_cells (Package.id row) itineraryDescriptions st1 w1) as K.
  rewrite U in K. destruct K as [K _].
  eexists. split; [|split].
  - rewrite (run_composite_checked pkg st w N B), P, U. reflexivity.
  - exact K.
  - intros T. cbn [packages log]. rewrite K.
    unfold package_write in P. rewrite T, run_addPackage in P.
    destruct (answer (insert_package pkg) w) as [[r|e'] w'] eqn:A; [|discriminate P].
    inversion P; subst. reflexivity.
Qed.

(** ** Fetching after a failed fetch *)

(** The error string is never cleared: a fetch the backend fails sets
    it, and a later fetch that succeeds replaces the cached list and
    leaves the old error string in place. *)
Theorem refetch_keeps_old_error (destinationId : option jsstring)
  (st : state) (w w1 w2 : W) (e : thrown) (data : option (list Package.t)) :
  let q := select_packages (if truthy_opt destinationId then destinationId else None) in
  answer q w = (Failure e, w1) ->
  answer q w1 = (Success data, w2) ->
  exists st1 st2,
    run answer (fetchPackages destinationId st) w = (Returned tt, st1, w1, [q]) /\
    run answer (fetchPackages destinationId st1) w1 = (Returned tt, st2, w2, [q]) /\
    packages st2 = rows_of data /\
    loading st2 = false /\
    error st2 = Some (message_or e "An error occurred").
Proof.
  cbv zeta. intros A1 A2. eexists. eexists. split; [|split].
  - rewrite run_fetchPackages. cbv zeta. rewrite A1. reflexivity.
  - rewrite run_fetchPackages. cbv zeta. rewrite A2. reflexivity.
  - repeat split.
Qed.

(** ** From the form to the hook *)

Lemma no_blank_after_trim (l : list jsstring) :
  existsb blank l = false -> existsb blank (List.map trim l) = false.
Proof.
  induction l as [|d r IH]; cbn [existsb List.map]; [reflexivity|].
  intros H. apply orb_false_iff in H as [B R].
  rewrite blank_trim, B, (IH R). reflexivity.
Qed.

(** The itinerary list a submit hands to [onSave] passes the checks of
    the composite save: saving it with any package reaches the backend,
    and the request made first is the package write. *)
Theorem form_itinerary_passes_the_save_checks
  (props : Form.Props) (form : Form.state) (pkg : PackageInput.t)
  (st : state) (w : W) :
  Form.validate form = Returned tt ->
  let descriptions :=
    Form.SaveData.itineraryDescriptions (Form.saveData props form) in
  descriptions <> [] /\
  existsb blank descriptions = false /\
  exists first rest,
    snd (run answer (addOrUpdatePackageWithItinerary pkg descriptions st) w)
    = first :: rest /\
    (first = insert_package pkg \/ exists id, first = update_package id pkg).
Proof.
  intros V. apply FormMore.validate_passes in V.
  destruct V as [_ [_ [_ [_ [_ [_ [_ [_ [N B]]]]]]]]].
  cbv zeta. cbn [Form.saveData Form.SaveData.itineraryDescriptions].
  assert (N' : List.map trim (Form.itineraryDescriptions form) <> []).
  { destruct (Form.itineraryDescriptions form); [congruence|discriminate]. }
  pose proof (no_blank_after_trim _ B) as B'.
  split; [exact N'|]. split; [exact B'|].
  rewrite (run_composite_checked pkg st w N' B').
  unfold package_write. destruct (truthy_id pkg) as [id|].
  - rewrite run_updatePackage.
    destruct (answer (update_package id pkg) w) as [[row|e] w1].
    + destruct (run answer (addOrUpdateItinerary _ _ _) w1) as [[[o2 st2] w2] c2].
      eexists. eexists. split; [reflexivity|]. right. exists id. reflexivity.
    + eexists. eexists. split; [reflexivity|]. right. exists id. reflexivity.
  - rewrite run_addPackage.
    destruct (answer (insert_package pkg) w) as [[row|e] w1].
    + destruct (run answer (addOrUpdateItinerary _ _ _) w1) as [[[o2 st2] w2] c2].
      eexists. eexists. split; [reflexivity|]. left. reflexivity.
    + eexists. eexists. split; [reflexivity|]. left. reflexivity.
Qed.

End Backend.

(** ** The statements above on the sample store *)

Import Backend.

(** [P1] edited in a cache of [P1] and [P2]: the row the backend
    returns takes the place of [P1], and [P2] stays second. *)
Lemma update_replaces_witness :
  let row := updated_package bali_row (decimal 7) bali_edit in
  exists st',
    run Backend.answer (updatePackage (lit "P1") bali_edit fetched) stocked
    = (Returned row, st',
       snd (Backend.answer (update_package (lit "P1") bali_edit) stocked),
       [update_package (lit "P1") bali_edit]) /\
    packages st' = [row; rome_row].
Proof.
  cbv zeta.
  destruct (@update_replaces_matching_entries db Backend.answer (lit "P1") bali_edit
              (updated_package bali_row (decimal 7) bali_edit) fetched stocked
              (snd (Backend.answer (update_package (lit "P1") bali_edit) stocked))
              ltac:(reflexivity))
    as [st' [R _]].
  exists st'. split; [exact R|].
  rewrite run_updatePackage in R. inversion R. reflexivity.
Defined.

(** A new package added to the fetched cache and deleted again. *)
Lemma added_row_removed_witness :
  let row := new_package (lit "pkg-7") (decimal 7) bali in
  let added := run Backend.answer (addPackage bali fetched) stocked in
  let deleted :=
    run Backend.answer (deletePackage (Package.id row) (snd (fst (fst added))))
      (snd (fst added)) in
  packages (snd (fst (fst added))) = row :: packages fetched /\
  packages (snd (fst (fst deleted))) = packages fetched /\
  snd added ++ snd deleted = [insert_package bali; delete_package (Package.id row)].
Proof.
  cbv zeta.
  refine (@add_then_delete_restores_cache db Backend.answer bali
            (new_package (lit "pkg-7") (decimal 7) bali) fetched _ _ stocked _ _ _ _
            _ _ _).
  - reflexivity.
  - reflexivity.
  - intros p [<-|[<-|[]]]; intros H; vm_compute in H; discriminate H.
Defined.

(** An insert the backend refuses. *)
Lemma failed_write_witness :
  run Backend.answer (addPackage bali fetched) (with_faults [Some (Error "boom")] stocked)
  = (Thrown (Error "boom"), log "Error adding package:" (Error "boom") fetched,
     stocked, [insert_package bali]).
Proof.
  exact (proj1 (@failed_write_keeps_cache db Backend.answer bali (lit "P1") fetched
                  (with_faults [Some (Error "boom")] stocked))
           (Error "boom") stocked eq_refl).
Defined.

(** An identifier the cache does not hold. *)
Lemma delete_absent_witness :
  run Backend.answer (deletePackage (lit "P9") fetched) stocked
  = (Returned tt, fetched, with_packages [bali_row; rome_row] stocked,
     [delete_package (lit "P9")]).
Proof.
  refine (@delete_absent_changes_nothing db Backend.answer (lit "P9") fetched stocked
            (with_packages [bali_row; rome_row] stocked) _ _).
  - reflexivity.
  - intros p [<-|[<-|[]]]; intros H; vm_compute in H; discriminate H.
Defined.

(** A new package whose row is written, and whose itinerary insert the
    backend then fails: the error comes back, the row stays cached. *)
Lemma failed_itinerary_write_witness :
  let row := new_package (lit "pkg-7") (decimal 7) bali in
  let w := with_faults [None; None; Some (Error "boom")] stocked in
  let save := run Backend.answer (addOrUpdatePackageWithItinerary bali two_days fetched) w in
  fst (fst (fst save)) = Thrown (Error "boom") /\
  packages (snd (fst (fst save))) = row :: packages fetched /\
  snd save = [insert_package bali;
              select_itinerary_id (lit "pkg-7");
              itinerary_insert (lit "pkg-7") two_days].
Proof.
  cbv zeta.
  pose (row := new_package (lit "pkg-7") (decimal 7) bali).
  pose (w := with_faults [None; None; Some (Error "boom")] stocked).
  pose (written := run Backend.answer (package_write bali fetched) w).
  pose (upserted :=
          run Backend.answer
            (addOrUpdateItinerary (Package.id row) two_days (snd (fst (fst written))))
            (snd (fst written))).
  destruct (@failed_itinerary_write_keeps_package db Backend.answer bali two_days row
              (Error "boom") fetched (snd (fst (fst written))) (snd (fst (fst upserted)))
              w (snd (fst written)) (snd (fst upserted)) (snd written) (snd upserted)
              ltac:(discriminate) ltac:(reflexivity) ltac:(reflexivity) ltac:(reflexivity))
    as [st' [R [_ P]]].
  fold w. rewrite R. cbn [fst snd].
  split; [reflexivity|]. split; [exact (P eq_refl)|reflexivity].
Defined.

(** A fetch that fails while offline, then one that succeeds. *)
Lemma stale_error_witness :
  let offline := with_faults [Some (Error "offline")] stocked in
  exists st1 st2,
    run Backend.answer (fetchPackages None initial) offline
    = (Returned tt, st1, stocked, [select_packages None]) /\
    run Backend.answer (fetchPackages None st1) stocked
    = (Returned tt, st2, stocked, [select_packages None]) /\
    packages st2 = [bali_row; rome_row] /\
    loading st2 = false /\
    error st2 = Some (lit "offline").
Proof.
  exact (@refetch_keeps_old_error db Backend.answer None initial
           (with_faults [Some (Error "offline")] stocked) stocked stocked
           (Error "offline") (Some [bali_row; rome_row]) eq_refl eq_refl).
Defined.

(** The list a valid form hands over, saved with a new package. *)
Lemma form_itinerary_witness :
  Form.validate Form.fractional_duration_form = Returned tt /\
  existsb blank
    (Form.SaveData.itineraryDescriptions
       (Form.saveData Form.create_mode Form.fractional_duration_form)) = false.
Proof.
  split; [reflexivity|].
  exact (proj1 (proj2 (@form_itinerary_passes_the_save_checks db Backend.answer
                         Form.create_mode Form.fractional_duration_form bali fetched
                         stocked eq_refl))).
Defined.

End HookMore.

(* ===================================================================== *)
(** * Facts about the form's own query *)
(* ===================================================================== *)

Module LoadFacts.
Import JS Eff Load EffFacts.
Local Open Scope eff_scope.

Section Backend.
Variable W : Type.
Variable answer : forall q : request, W -> reply q * W.

(** The loader in closed form, for a package with an identifier. *)
Lemma run_fetchExistingItinerary (props : Form.Props) (id : jsstring)
  (st : state) (w : W) :
  Form.pkg_id props = Some id -> truthy_string id = true ->
  run answer (fetchExistingItinerary props st) w =
  let '(a, w1) := answer (select_itinerary id) w in
  (Returned tt,
   match loaded a, reported a with
   | Some l, _ => setItineraryDescriptions l st
   | None, Some e => log "Error fetching itinerary:" e st
   | None, None => st
   end, w1, [select_itinerary id]).
Proof.
  intros P T. unfold fetchExistingItinerary. rewrite P, T.
  rewrite run_try_catch, run_bind. cbn [call run].
  destruct (answer (select_itinerary id) w) as [[[[data|]|e]|e] w1]; reflexivity.
Qed.

(** Loading the stored itinerary never fails the form. The mount effect
    makes no request for a new package, and one request, for the
    itinerary of the package edited, otherwise. Whatever the answer,
    nothing is thrown and no cell but the itinerary list changes, the
    form's error message and loading flag included: a rejected promise
    and an error answer go to the console only and leave the list as it
    was, as does an answer without a row; a row replaces the list by its
    descriptions (none when the column is null). *)
Theorem load_is_silent (props : Form.Props) (st : state) (w : W) :
  let '(o, st', _, calls) := run answer (mount_effect props st) w in
  o = Returned tt /\
  Form.title (form st') = Form.title (form st) /\
  Form.description (form st') = Form.description (form st) /\
  Form.duration (form st') = Form.duration (form st) /\
  Form.price (form st') = Form.price (form st) /\
  Form.mainImageUrl (form st') = Form.mainImageUrl (form st) /\
  Form.selectedDestinationId (form st') = Form.selectedDestinationId (form st) /\
  Form.loading (form st') = Form.loading (form st) /\
  Form.error (form st') = Form.error (form st) /\
  if truthy_opt (Form.pkg_id props) then
    exists id,
      Form.pkg_id props = Some id /\
      calls = [select_itinerary id] /\
      let a := fst (answer (select_itinerary id) w) in
      Form.itineraryDescriptions (form st')
      = match loaded a with
        | Some l => l
        | None => Form.itineraryDescriptions (form st)
        end /\
      console st'
      = console st ++ match reported a with
                      | Some e => [(lit "Error fetching itinerary:", e)]
                      | None => []
                      end
  else calls = [] /\ st' = st.
Proof.
  unfold mount_effect.
  destruct (Form.pkg_id props) as [id|] eqn:P; cbn [truthy_opt].
  - destruct (truthy_string id) eqn:T.
    + rewrite (run_fetchExistingItinerary props st w P T).
      destruct (answer (select_itinerary id) w) as [a w1] eqn:A.
      destruct a as [[[data|]|e]|e]; cbn [loaded reported];
        (repeat (split; [reflexivity|]));
        exists id; rewrite A;
        cbn [fst loaded reported form console setItineraryDescriptions log
               Form.itineraryDescriptions];
        rewrite ?app_nil_r; repeat split.
    + cbn. repeat split.
  - cbn. repeat split.
Qed.

End Backend.

End LoadFacts.
